(** * SIHP-IntelRisk: report clustering, veracity gate, geocoding and
      composite-hotspot aggregation

    A shallow embedding of [src/checker/checker_fixed.py] and
    [src/detecter/detecter_fixed.py].

    Conventions of the embedding:
    - Python [float] and [int] values that are only added, multiplied,
      divided and compared are rationals ([Q]) or integers ([Z]); a
      division by zero, which Python raises, is written out as an error.
    - [Optional[str]] is [option string]; Python truthiness of such a value
      ([if report.event_type]) is [truthy]: present and not the empty string.
    - Library routines whose code is not part of the repository
      ([rapidfuzz.fuzz.token_set_ratio], [datetime.strptime], the
      trigonometry of [math], the HTTP client) are Section variables. *)

From Stdlib Require Import Ascii QArith Qabs Lqa.
From stdpp Require Import base option list gmap strings sorting.

(** ** Rationals as booleans *)

Definition Qleb (x y : Q) : bool := Qle_bool x y.
Definition Qltb (x y : Q) : bool := negb (Qle_bool y x).
Definition Qeqb (x y : Q) : bool := Qeq_bool x y.

(** ** Python strings (ASCII fragment) *)

Module PyStr.

(** [bool(s)] for an [Optional[str]]. *)
Definition truthy (s : option string) : bool :=
  match s with
  | Some EmptyString => false
  | Some _ => true
  | None => false
  end.

Definition lower_ascii (c : ascii) : ascii :=
  let n := nat_of_ascii c in
  if (65 <=? n)%nat && (n <=? 90)%nat then ascii_of_nat (n + 32) else c.

(** [str.lower()]. *)
Fixpoint lower (s : string) : string :=
  match s with
  | EmptyString => EmptyString
  | String c r => String (lower_ascii c) (lower r)
  end.

(** The characters [str.strip()] removes: space, tab, newline, vertical
    tab, form feed, carriage return and the four separators 28..31. *)
Definition is_space (c : ascii) : bool :=
  let n := nat_of_ascii c in
  (n =? 32)%nat || ((9 <=? n)%nat && (n <=? 13)%nat)
  || ((28 <=? n)%nat && (n <=? 31)%nat).

Fixpoint lstrip (s : string) : string :=
  match s with
  | EmptyString => EmptyString
  | String c r => if is_space c then lstrip r else s
  end.

(** Right strip: a character is kept when something non-blank follows or
    it is itself non-blank. *)
Fixpoint rstrip (s : string) : string :=
  match s with
  | EmptyString => EmptyString
  | String c r =>
      match rstrip r with
      | EmptyString => if is_space c then EmptyString else String c EmptyString
      | r' => String c r'
      end
  end.

(** [str.strip()]. *)
Definition strip (s : string) : string := rstrip (lstrip s).

(** [s.replace(" ", "_")]. *)
Fixpoint replace_space (s : string) : string :=
  match s with
  | EmptyString => EmptyString
  | String c r =>
      String (if Ascii.eqb c " "%char then "_"%char else c) (replace_space r)
  end.

End PyStr.

(** ** Exceptions

    A computation that Python may abort with an exception returns a
    [result]: the value, or the exception raised. *)

Inductive exn : Type :=
  | ValueError
  | ZeroDivisionError
  | KeyError
  | IndexError
  | RequestException.

Inductive result (A : Type) : Type :=
  | Ok (a : A)
  | Raise (e : exn).
Arguments Ok {A} a.
Arguments Raise {A} e.

Definition bind {A B} (m : result A) (k : A -> result B) : result B :=
  match m with
  | Ok a => k a
  | Raise e => Raise e
  end.

Notation "x <-- m ;; k" := (bind m (fun x => k))
  (at level 100, m at next level, right associativity).

(** [try: body except Exception: handler]. *)
Definition try_except {A} (body : result A) (handler : exn -> result A)
  : result A :=
  match body with
  | Ok a => Ok a
  | Raise e => handler e
  end.

(** ** Python's [max(iterable, key=...)]

    The first element whose key is not exceeded by any later key: the
    running maximum is replaced only by a strictly greater key. *)

Section PyMax.
Context {A K : Type} (key : A -> K) (ltb : K -> K -> bool).

Fixpoint max_from (best : A) (rest : list A) : A :=
  match rest with
  | [] => best
  | x :: rest' => max_from (if ltb (key best) (key x) then x else best) rest'
  end.

(** [max] of an empty sequence raises [ValueError]. *)
Definition py_max (xs : list A) : result A :=
  match xs with
  | [] => Raise ValueError
  | x :: rest => Ok (max_from x rest)
  end.

End PyMax.

(** ** Greedy anchor clustering, generic in the element type

    The loop of [_create_clusters]: every element is compared with the
    first element of each existing cluster, in cluster order; it is appended
    to the first cluster whose anchor it matches, and opens a new cluster at
    the end otherwise. *)

Section AnchorClustering.
Context {A : Type} (matches : A -> A -> bool).

(** The inner [for cluster in clusters] loop with its [break]: the index
    of the first cluster whose anchor [cluster[0]] matches. *)
Fixpoint find_cluster (x : A) (clusters : list (list A)) : option nat :=
  match clusters with
  | [] => None
  | cluster :: rest =>
      match cluster with
      | rep :: _ =>
          if matches x rep then Some 0%nat
          else S <$> find_cluster x rest
      | [] => S <$> find_cluster x rest
      end
  end.

(** One iteration of the outer loop. *)
Definition place (clusters : list (list A)) (x : A) : list (list A) :=
  match find_cluster x clusters with
  | None => clusters ++ [[x]]
  | Some k => alter (fun c => c ++ [x]) k clusters
  end.

Definition cluster_loop (clusters : list (list A)) (xs : list A)
  : list (list A) :=
  fold_left place xs clusters.

End AnchorClustering.

(** ** The checker *)

Module Checker.

Record Report := mkReport {
  event_type : option string;
  location : option string;
  timestamp : option string;
  description : option string;
  source : option string;
  media_urls : list string;
  reporter : option string;
  confidence : option Q;
  veracity_flag : option string
}.

(** The fields [CheckerA.__init__] reads from its configuration. *)
Record Config := mkConfig {
  trusted_sources : gset string;
  event_type_similarity_threshold : Q;
  location_similarity_threshold : Q;
  description_similarity_threshold : Q;
  time_window_seconds : Q
}.

Definition default_trusted_sources : gset string :=
  {[ "official_news_agency"; "government_official"; "well_known_media";
     "red_cross"; "un_official_disaster_org" ]}.

(** [CheckerA()] with no configuration. *)
Definition default_config : Config :=
  mkConfig default_trusted_sources
           (inject_Z 60) (inject_Z 60) (inject_Z 60) (inject_Z 7200).

Definition normalize_source (source : option string) : option string :=
  if PyStr.truthy source
  then (fun s => PyStr.replace_space (PyStr.lower (PyStr.strip s))) <$> source
  else None.

Definition is_source_trusted (cfg : Config) (source : option string) : bool :=
  let norm := normalize_source source in
  PyStr.truthy norm &&
  match norm with
  | Some n => bool_decide (n ∈ trusted_sources cfg)
  | None => false
  end.

Section WithLibraries.
(** [fuzz.token_set_ratio], a score between 0 and 100. *)
Variable token_set_ratio : string -> string -> Q.
(** [datetime.strptime(t, "%Y-%m-%dT%H:%M:%SZ")] as seconds on the
    time line, [None] when it raises. *)
Variable strptime : string -> option Z.
Variable cfg : Config.

Definition similarity (a b : option string) : Q :=
  match a, b with
  | Some a', Some b' =>
      if PyStr.truthy a && PyStr.truthy b
      then token_set_ratio (PyStr.lower a') (PyStr.lower b')
      else 0
  | _, _ => 0
  end.

(** A [None] argument makes [strptime] raise [TypeError], which the
    handler turns into [False] like any parsing failure. *)
Definition time_within_window (t1 t2 : option string) : bool :=
  match t1, t2 with
  | Some s1, Some s2 =>
      match strptime s1, strptime s2 with
      | Some dt1, Some dt2 =>
          Qleb (inject_Z (Z.abs (dt1 - dt2))) (time_window_seconds cfg)
      | _, _ => false
      end
  | _, _ => false
  end.

Definition both (a b : option string) : bool :=
  PyStr.truthy a && PyStr.truthy b.

(** The four field comparisons of the loop body: each returns what it
    adds to [total_fields] and to [match_count]. *)
Definition event_type_field (report rep : Report) : nat * nat :=
  if both (event_type report) (event_type rep)
  then (1, if Qleb (event_type_similarity_threshold cfg)
                   (similarity (event_type report) (event_type rep))
           then 1 else 0)%nat
  else (0, 0)%nat.

Definition location_field (report rep : Report) : nat * nat :=
  if both (location report) (location rep)
  then (1, if Qleb (location_similarity_threshold cfg)
                   (similarity (location report) (location rep))
           then 1 else 0)%nat
  else (0, 0)%nat.

Definition timestamp_field (report rep : Report) : nat * nat :=
  if both (timestamp report) (timestamp rep)
  then (1, if time_within_window (timestamp report) (timestamp rep)
           then 1 else 0)%nat
  else (0, 0)%nat.

Definition description_field (report rep : Report) : nat * nat :=
  if both (description report) (description rep)
  then (1, if Qleb (description_similarity_threshold cfg)
                   (similarity (description report) (description rep))
           then 1 else 0)%nat
  else (0, 0)%nat.

Definition total_fields (report rep : Report) : nat :=
  (event_type_field report rep).1 + (location_field report rep).1
  + (timestamp_field report rep).1 + (description_field report rep).1.

Definition match_count (report rep : Report) : nat :=
  (event_type_field report rep).2 + (location_field report rep).2
  + (timestamp_field report rep).2 + (description_field report rep).2.

(** [total_fields > 0 and match_count >= max(2, total_fields // 2)]. *)
Definition joins (report rep : Report) : bool :=
  (0 <? total_fields report rep)%nat
  && (Nat.max 2 (total_fields report rep / 2) <=? match_count report rep)%nat.

Definition _create_clusters (reports : list Report) : list (list Report) :=
  cluster_loop joins [] reports.

End WithLibraries.

(** [sum(self.is_source_trusted(r.source) for r in cluster)]. *)
Definition trusted_count (cfg : Config) (cluster : list Report) : nat :=
  list_sum ((fun r => Nat.b2n (is_source_trusted cfg (source r))) <$> cluster).

(** The [if / elif / elif] chain of [process_clusters]: [false] is the
    [continue] of the third branch, [true] is every way of reaching the
    code after the chain (including no branch being taken). *)
Definition passes_gate (trusted total : nat) : bool :=
  if (1 <=? trusted)%nat && (total =? 1)%nat then true
  else if (2 <=? total)%nat then true
  else if (trusted =? 0)%nat && (total <? 2)%nat then false
  else true.

(** [r.confidence or 0]. *)
Definition confidence_key (r : Report) : Q :=
  match confidence r with
  | Some c => c
  | None => 0
  end.

(** The two assignments to the chosen report. *)
Definition mark_verified (best_report : Report) : Report :=
  {| event_type := event_type best_report;
     location := location best_report;
     timestamp := timestamp best_report;
     description := description best_report;
     source := source best_report;
     media_urls := media_urls best_report;
     reporter := if PyStr.truthy (reporter best_report)
                 then reporter best_report else Some "unknown";
     confidence := confidence best_report;
     veracity_flag := Some "verified" |}.

(** One iteration of the loop of [process_clusters]: [Ok None] is the
    [continue], [Ok (Some r)] the report appended. *)
Definition process_cluster (cfg : Config) (cluster : list Report)
  : result (option Report) :=
  let trusted := trusted_count cfg cluster in
  let total := length cluster in
  if passes_gate trusted total then
    best_report <-- py_max confidence_key Qltb cluster ;;
    Ok (Some (mark_verified best_report))
  else Ok None.

Fixpoint process_clusters (cfg : Config) (clusters : list (list Report))
  : result (list Report) :=
  match clusters with
  | [] => Ok []
  | cluster :: rest =>
      emitted <-- process_cluster cfg cluster ;;
      verified_reports <-- process_clusters cfg rest ;;
      Ok (match emitted with
          | Some r => r :: verified_reports
          | None => verified_reports
          end)
  end.

Section Run.
Variable token_set_ratio : string -> string -> Q.
Variable strptime : string -> option Z.
Variable cfg : Config.

(** [CheckerA.run]. *)
Definition run (reports : list Report) : result (list Report) :=
  process_clusters cfg (_create_clusters token_set_ratio strptime cfg reports).

End Run.

End Checker.


(** ** The detecter *)

Module Detecter.

Local Open Scope Q_scope.

(** An attribute of a duck-typed object, as [getattr] sees it: not there,
    there with value [None], or there with a value. *)
Inductive attr (A : Type) : Type :=
  | Missing
  | IsNone
  | Has (a : A).
Arguments Missing {A}.
Arguments IsNone {A}.
Arguments Has {A} a.

(** [getattr(obj, name, default)]. *)
Definition getattr {A} (a : attr A) (default : option A) : option A :=
  match a with
  | Missing => default
  | IsNone => None
  | Has v => Some v
  end.

(** [AggregateStatus]. *)
Inductive AggregateStatus : Type :=
  | pending
  | aggregated
  | error.

(** A human or disaster hotspot record, the [payload] of a point. Only
    [location] and [status] are read as plain attributes; everything else
    goes through [getattr]. *)
Record Hotspot := mkHotspot {
  hs_location : option string;
  hs_status : AggregateStatus;
  hs_report_id : attr Z;
  hs_confidence : attr Q;
  hs_emotions : attr (list (string * Q));
  hs_panic_level : attr string;
  hs_event_type : attr string;
  hs_severity : attr string;
  hs_risk_level : attr string
}.

(** The dictionary built by [_process_hotspot]; [p_x] is [p["x"]]. *)
Record GeoPoint := mkGeoPoint {
  p_type : string;
  p_payload : Hotspot;
  p_latitude : Q;
  p_longitude : Q;
  p_confidence : Q
}.

(** A row of the [composite_hotspots] table. *)
Record CompositeHotspot := mkCompositeHotspot {
  ch_id : Z;
  ch_latitude : Q;
  ch_longitude : Q;
  ch_aggregated_emotions : option (gmap string Q);
  ch_average_panic_level : option Q;
  ch_event_types : option (list string);
  ch_severity_level : string;
  ch_risk_level : string;
  ch_contributing_reports_count : Z
}.

(** The dictionary returned by [update_or_create_composite_hotspot]. *)
Record HotspotData := mkHotspotData {
  out_latitude : Q;
  out_longitude : Q;
  out_aggregated_emotions : option (gmap string Q);
  out_average_panic_level : option Q;
  out_event_types : option (list string);
  out_severity_level : string;
  out_risk_level : string;
  out_contributing_reports : Z
}.

(** *** GeoCoder *)

(** What [requests.get] and the calls on its response can do. A body is
    the decoded JSON document: [None] when [resp.json()] raises, otherwise
    the list of result objects, each a list of key/value pairs. *)
Inductive http_outcome : Type :=
  | TransportFailure
  | Response (status_ok : bool) (body : option (list (list (string * string)))).

(** The geocoder instance together with the part of the outside world it
    touches: the clock, the sleeps performed, the requests sent and the
    two Prometheus counters. The cache of [lru_cache] is kept most
    recently used first. *)
Record GeoState := mkGeoState {
  last_call_time : Q;
  cache : list (string * option (Q * Q));
  clock : Q;
  sleeps : list Q;
  sent : list string;
  GEOCODING_REQUESTS : nat;
  GEOCODING_ERRORS : nat
}.

Definition maxsize : nat := 1000.

Section GeoCoder.
(** The answer of the geocoding service to a query sent at a given time. *)
Variable requests_get : string -> Q -> http_outcome.
(** [float(s)] on a string, [None] when it raises [ValueError]. *)
Variable py_float : string -> option Q.

Fixpoint assoc (k : string) (row : list (string * string)) : result string :=
  match row with
  | [] => Raise KeyError
  | (k', v) :: rest => if String.eqb k k' then Ok v else assoc k rest
  end.

Definition to_float (s : string) : result Q :=
  match py_float s with
  | Some x => Ok x
  | None => Raise ValueError
  end.

(** The body of the [try] block. *)
Definition fetch (location : string) (st : GeoState)
  : result (option (Q * Q)) :=
  match requests_get location (clock st) with
  | TransportFailure => Raise RequestException
  | Response status_ok body =>
      if negb status_ok then Raise RequestException
      else match body with
           | None => Raise ValueError
           | Some [] => Ok None
           | Some (first :: _) =>
               lat_s <-- assoc "lat" first ;;
               lat <-- to_float lat_s ;;
               lon_s <-- assoc "lon" first ;;
               lon <-- to_float lon_s ;;
               Ok (Some (lat, lon))
           end
  end.

Definition blank (location : string) : bool :=
  negb (PyStr.truthy (Some location))
  || negb (PyStr.truthy (Some (PyStr.strip location))).

(** [time.sleep(d)]: the clock moves on by [d]. *)
Definition sleep (d : Q) (st : GeoState) : GeoState :=
  mkGeoState (last_call_time st) (cache st) (clock st + d)
             (sleeps st ++ [d]) (sent st)
             (GEOCODING_REQUESTS st) (GEOCODING_ERRORS st).

(** The function under the [lru_cache] decorator. *)
Definition geocode_uncached (location : string) (st : GeoState)
  : result (option (Q * Q)) * GeoState :=
  if blank location then (Ok None, st)
  else
    let now := clock st in
    let st1 := if Qltb (now - last_call_time st) 1
               then sleep (1 - (now - last_call_time st)) st
               else st in
    let st2 := mkGeoState now (cache st1) (clock st1) (sleeps st1)
                          (sent st1 ++ [location])
                          (S (GEOCODING_REQUESTS st1)) (GEOCODING_ERRORS st1) in
    (try_except (fetch location st2) (fun _ => Ok None),
     match fetch location st2 with
     | Ok _ => st2
     | Raise _ =>
         mkGeoState (last_call_time st2) (cache st2) (clock st2) (sleeps st2)
                    (sent st2) (GEOCODING_REQUESTS st2)
                    (S (GEOCODING_ERRORS st2))
     end).

Fixpoint cache_find (k : string) (c : list (string * option (Q * Q)))
  : option (option (Q * Q)) :=
  match c with
  | [] => None
  | (k', v) :: rest => if String.eqb k k' then Some v else cache_find k rest
  end.

Definition cache_remove (k : string) (c : list (string * option (Q * Q)))
  : list (string * option (Q * Q)) :=
  filter (fun e => negb (String.eqb k e.1)) c.

Definition set_cache (c : list (string * option (Q * Q))) (st : GeoState)
  : GeoState :=
  mkGeoState (last_call_time st) c (clock st) (sleeps st) (sent st)
             (GEOCODING_REQUESTS st) (GEOCODING_ERRORS st).

(** [GeoCoder.geocode] with its [lru_cache(maxsize=1000)]: a hit returns
    the stored result and makes the entry the most recent one; a miss runs
    the function, stores a returned result (never an exception) and drops
    the least recently used entry when the cache is over its size. *)
Definition geocode (location : string) (st : GeoState)
  : result (option (Q * Q)) * GeoState :=
  match cache_find location (cache st) with
  | Some v =>
      (Ok v, set_cache ((location, v) :: cache_remove location (cache st)) st)
  | None =>
      match geocode_uncached location st with
      | (Ok v, st') =>
          (Ok v, set_cache (take maxsize ((location, v) :: cache st')) st')
      | (Raise e, st') => (Raise e, st')
      end
  end.

(** [getattr(hotspot, "confidence", 1.0) or 1.0]. *)
Definition confidence_or_one (c : attr Q) : Q :=
  match getattr c (Some 1) with
  | Some x => if Qeqb x 0 then 1 else x
  | None => 1
  end.

(** [hotspot.location or ""]. *)
Definition location_or_empty (l : option string) : string :=
  match l with
  | Some s => s
  | None => ""
  end.

Definition _process_hotspot (hotspot_type : string) (hotspot : Hotspot)
  (st : GeoState) : result (option GeoPoint) * GeoState :=
  match geocode (location_or_empty (hs_location hotspot)) st with
  | (Ok (Some coords), st') =>
      (Ok (Some (mkGeoPoint hotspot_type hotspot coords.1 coords.2
                            (confidence_or_one (hs_confidence hotspot)))), st')
  | (Ok None, st') => (Ok None, st')
  | (Raise e, st') => (Raise e, st')
  end.

(** The tasks run one after the other, in the order they were created;
    a result that is an exception or [None] adds no point. *)
Fixpoint gather (tasks : list (string * Hotspot)) (st : GeoState)
  : list GeoPoint * GeoState :=
  match tasks with
  | [] => ([], st)
  | (ty, h) :: rest =>
      let '(r, st') := _process_hotspot ty h st in
      let '(points, st'') := gather rest st' in
      (match r with
       | Ok (Some p) => p :: points
       | _ => points
       end, st'')
  end.

Definition assemble_unified_points (human_hotspots disaster_hotspots : list Hotspot)
  (st : GeoState) : list GeoPoint * GeoState :=
  gather (((fun h => ("human", h)) <$> human_hotspots)
          ++ ((fun d => ("disaster", d)) <$> disaster_hotspots)) st.

End GeoCoder.

(** *** Haversine distance *)

Section Geometry.
(** [math.radians]. *)
Variable radians : Q -> Q.
(** The central angle [2 * asin(sqrt(a))] between two points given in
    radians, [a] being the haversine term of lines 115-117. *)
Variable central_angle : Q * Q -> Q * Q -> Q.

Definition haversine_distance (c1 c2 : Q * Q) : Q :=
  let '(lat1, lon1) := (radians c1.1, radians c1.2) in
  let '(lat2, lon2) := (radians c2.1, radians c2.2) in
  let c := central_angle (lat1, lon1) (lat2, lon2) in
  let r := 6371 in
  c * r.

(** *** Aggregation of one group of points *)

(** [sum(...)]: from 0, left to right. *)
Definition sumQ (xs : list Q) : Q := foldl Qplus 0 xs.

(** [max] of a non-empty list of numbers, first maximum. *)
Definition maxQ (x : Q) (xs : list Q) : Q := max_from id Qltb x xs.

Definition severity_scale (severity : option string) : option Q :=
  match severity with
  | Some "critical" => Some 4
  | Some "high" => Some 3
  | Some "medium" => Some 2
  | Some "low" => Some 1
  | _ => None
  end.

(** [severity_scale.get(severity, 1)]. *)
Definition severity_value (severity : option string) : Q :=
  default 1 (severity_scale severity).

(** [rev_severity.get(v, "low")]: a number that is none of 4, 3, 2, 1 is
    not a key. *)
Definition rev_severity (v : Q) : string :=
  if Qeqb v 4 then "critical"
  else if Qeqb v 3 then "high"
  else if Qeqb v 2 then "medium"
  else if Qeqb v 1 then "low"
  else "low".

Definition panic_map (panic_level : string) : Q :=
  if String.eqb panic_level "high" then 1
  else if String.eqb panic_level "medium" then 6 # 10
  else if String.eqb panic_level "low" then 3 # 10
  else 0.

(** [Counter]: keys in the order of their first count. *)
Fixpoint counter_incr (k : string) (c : list (string * nat))
  : list (string * nat) :=
  match c with
  | [] => [(k, 1%nat)]
  | (k', n) :: rest =>
      if String.eqb k k' then (k', S n) :: rest
      else (k', n) :: counter_incr k rest
  end.

Fixpoint counter_get (k : string) (c : list (string * nat)) : nat :=
  match c with
  | [] => 0%nat
  | (k', n) :: rest => if String.eqb k k' then n else counter_get k rest
  end.

(** [risk_counts.most_common(1)[0][0]]: [heapq.nlargest(1, items, key)]
    is [max(items, key=count)]; indexing the empty result raises. *)
Definition most_common_key (c : list (string * nat)) : result string :=
  match c with
  | [] => Raise IndexError
  | e :: rest => Ok (max_from snd Nat.ltb e rest).1
  end.

Record Agg := mkAgg {
  emotion_agg : gmap string Q;
  panic_scores : list Q;
  risk_counts : list (string * nat);
  event_types_set : gset string;
  severity_vals : list Q;
  report_ids : gset Z
}.

Definition empty_agg : Agg := mkAgg ∅ [] [] ∅ [] ∅.

(** [if report_id: report_ids.add(report_id)]: [None] and [0] are falsy. *)
Definition add_report_id (report_id : option Z) (ids : gset Z) : gset Z :=
  match report_id with
  | Some z => if (z =? 0)%Z then ids else ids ∪ {[ z ]}
  | None => ids
  end.

(** [if event_type: event_types_set.add(event_type)]. *)
Definition add_event_type (event_type : option string) (s : gset string)
  : gset string :=
  match event_type with
  | Some e => if PyStr.truthy event_type then s ∪ {[ e ]} else s
  | None => s
  end.

(** [if risk_level: risk_counts[risk_level] += 1]. *)
Definition count_risk (risk_level : option string) (c : list (string * nat))
  : list (string * nat) :=
  match risk_level with
  | Some r => if PyStr.truthy risk_level then counter_incr r c else c
  | None => c
  end.

Definition add_emotion (conf : Q) (m : gmap string Q) (emo : string * Q)
  : gmap string Q :=
  <[ emo.1 := default 0 (m !! emo.1) + emo.2 * conf ]> m.

(** The body of [for p in cluster_points]. *)
Definition aggregate_point (a : Agg) (p : GeoPoint) : Agg :=
  let payload := p_payload p in
  let report_id := getattr (hs_report_id payload) None in
  let ids := add_report_id report_id (report_ids a) in
  if String.eqb (p_type p) "human" then
    let emotions := default [] (getattr (hs_emotions payload) (Some [])) in
    let panic_level :=
      PyStr.lower
        (match getattr (hs_panic_level payload) (Some "") with
         | Some s => s
         | None => ""
         end) in
    mkAgg (foldl (add_emotion (p_confidence p)) (emotion_agg a) emotions)
          (panic_scores a ++ [p_confidence p * panic_map panic_level])
          (risk_counts a) (event_types_set a) (severity_vals a) ids
  else if String.eqb (p_type p) "disaster" then
    let event_type := getattr (hs_event_type payload) None in
    let severity := getattr (hs_severity payload) (Some "low") in
    let sev_val := severity_value severity in
    let risk_level := getattr (hs_risk_level payload) None in
    mkAgg (emotion_agg a) (panic_scores a)
          (count_risk risk_level (risk_counts a))
          (add_event_type event_type (event_types_set a))
          (severity_vals a ++ [sev_val * p_confidence p]) ids
  else
    mkAgg (emotion_agg a) (panic_scores a) (risk_counts a)
          (event_types_set a) (severity_vals a) ids.

Definition aggregate (cluster_points : list GeoPoint) : Agg :=
  foldl aggregate_point empty_agg cluster_points.

(** Lines 174-179: the guarded total weight and the weighted centroid. *)
Definition total_confidence (cluster_points : list GeoPoint) : Q :=
  let t := sumQ (p_confidence <$> cluster_points) in
  if Qeqb t 0 then 1 else t.

Definition centroid (cluster_points : list GeoPoint) : Q * Q :=
  (sumQ ((fun p => p_latitude p * p_confidence p) <$> cluster_points)
     / total_confidence cluster_points,
   sumQ ((fun p => p_longitude p * p_confidence p) <$> cluster_points)
     / total_confidence cluster_points).

Definition approx_deg : Q := 5 # 100.

Definition between (x lo hi : Q) : bool := Qleb lo x && Qleb x hi.

(** The [select ... where ... between] query, in table order. *)
Definition candidates (db : list CompositeHotspot) (avg : Q * Q)
  : list CompositeHotspot :=
  filter (fun ch =>
            between (ch_latitude ch) (avg.1 - approx_deg) (avg.1 + approx_deg)
            && between (ch_longitude ch) (avg.2 - approx_deg) (avg.2 + approx_deg))
         db.

(** The first candidate within 5 km. *)
Definition find_existing (db : list CompositeHotspot) (avg : Q * Q)
  : option CompositeHotspot :=
  List.find (fun ch =>
               Qleb (haversine_distance (ch_latitude ch, ch_longitude ch) avg) 5)
            (candidates db avg).

(** Python's [x / y] on numbers. *)
Definition py_div (x y : Q) : result Q :=
  if Qeqb y 0 then Raise ZeroDivisionError else Ok (x / y).

Definition to_hotspot_data (ch : CompositeHotspot) : HotspotData :=
  mkHotspotData (ch_latitude ch) (ch_longitude ch) (ch_aggregated_emotions ch)
                (ch_average_panic_level ch) (ch_event_types ch)
                (ch_severity_level ch) (ch_risk_level ch)
                (ch_contributing_reports_count ch).

(** The running average of one emotion in the merge branch. *)
Definition merge_emotion (count total_reports : Q)
  (acc : result (gmap string Q)) (e : string * Q) : result (gmap string Q) :=
  aggregated_emotions <-- acc ;;
  let prev_score := default 0 (aggregated_emotions !! e.1) in
  new_score <-- py_div (prev_score * count + e.2) total_reports ;;
  Ok (<[ e.1 := new_score ]> aggregated_emotions).

(** The values written by the [update] statement (lines 237-254). *)
Definition merged_values (existing : CompositeHotspot) (a : Agg)
  (avg : Q * Q) : result CompositeHotspot :=
  let count := inject_Z (ch_contributing_reports_count existing) in
  let n_ids := Z.of_nat (size (report_ids a)) in
  let total_reports := (ch_contributing_reports_count existing + n_ids)%Z in
  aggregated_emotions <--
    foldl (merge_emotion count (inject_Z total_reports))
          (Ok (default ∅ (ch_aggregated_emotions existing)))
          (map_to_list (emotion_agg a)) ;;
  avg_panic <--
    py_div (default 0 (ch_average_panic_level existing) * count
            + sumQ (panic_scores a)) (inject_Z total_reports) ;;
  let event_types :=
    elements (list_to_set (default [] (ch_event_types existing))
              ∪ event_types_set a : gset string) in
  let severity_level_num :=
    maxQ (severity_value (Some (ch_severity_level existing))) (severity_vals a) in
  let severity_level := rev_severity severity_level_num in
  risk_level <--
    match risk_counts a with
    | [] => Ok (ch_risk_level existing)
    | _ => most_common_key (risk_counts a)
    end ;;
  new_lat <-- py_div (ch_latitude existing * count + avg.1 * inject_Z n_ids)
                     (inject_Z total_reports) ;;
  new_lon <-- py_div (ch_longitude existing * count + avg.2 * inject_Z n_ids)
                     (inject_Z total_reports) ;;
  Ok (mkCompositeHotspot (ch_id existing) new_lat new_lon
        (Some aggregated_emotions) (Some avg_panic) (Some event_types)
        severity_level risk_level total_reports).

(** The [update ... where id == existing.id] statement. *)
Definition db_update (db : list CompositeHotspot) (row : CompositeHotspot)
  : list CompositeHotspot :=
  (fun ch => if (ch_id ch =? ch_id row)%Z then row else ch) <$> db.

(** The row a [refresh] reads back. *)
Definition db_get (db : list CompositeHotspot) (id : Z)
  : option CompositeHotspot :=
  List.find (fun ch => (ch_id ch =? id)%Z) db.

(** The primary key given to an inserted row: above every key in use. *)
Definition next_id (db : list CompositeHotspot) : Z :=
  (foldr Z.max 0 (ch_id <$> db) + 1)%Z.

(** The row built in the create branch (lines 290-299). *)
Definition created_values (id : Z) (cluster_points : list GeoPoint) (a : Agg)
  (avg : Q * Q) : result CompositeHotspot :=
  let n := inject_Z (Z.of_nat (length cluster_points)) in
  aggregated_emotions <--
    map_fold (fun k v (acc : result (gmap string Q)) =>
                m <-- acc ;; q <-- py_div v n ;; Ok (<[ k := q ]> m))
             (Ok ∅) (emotion_agg a) ;;
  average_panic_level <--
    match panic_scores a with
    | [] => Ok 0
    | _ => py_div (sumQ (panic_scores a)) n
    end ;;
  risk_level <--
    match risk_counts a with
    | [] => Ok "unknown"
    | _ => most_common_key (risk_counts a)
    end ;;
  Ok (mkCompositeHotspot id avg.1 avg.2
        (Some aggregated_emotions) (Some average_panic_level)
        (Some (elements (event_types_set a)))
        (rev_severity match severity_vals a with
                      | [] => 1
                      | v :: vs => maxQ v vs
                      end)
        risk_level (Z.of_nat (size (report_ids a)))).

(** [update_or_create_composite_hotspot]: the table before, the group of
    points; the table after and the dictionary returned, or the exception
    raised (in which case nothing was written). *)
Definition update_or_create_composite_hotspot
  (db : list CompositeHotspot) (cluster_points : list GeoPoint)
  : result (list CompositeHotspot * HotspotData) :=
  let avg := centroid cluster_points in
  let a := aggregate cluster_points in
  match find_existing db avg with
  | Some existing =>
      row <-- merged_values existing a avg ;;
      let db' := db_update db row in
      match db_get db' (ch_id existing) with
      | Some refreshed => Ok (db', to_hotspot_data refreshed)
      | None => Raise KeyError
      end
  | None =>
      row <-- created_values (next_id db) cluster_points a avg ;;
      Ok (db ++ [row], to_hotspot_data row)
  end.

(** *** Spatial clustering

    [sklearn.cluster.DBSCAN] is a library routine, not part of the
    repository. It is modelled after scikit-learn's implementation
    ([DBSCAN.fit] and [dbscan_inner]): the neighbourhood of a sample is the
    list of samples within [eps] of it (itself included), a sample is a core
    sample when its neighbourhood has at least [min_samples] members, and
    labels are handed out by a depth-first search from every core sample
    that has no label yet, in index order. Label -1 means "no label". *)

Section Dbscan.
Context {P : Type} (metric : P -> P -> Q) (eps : Q) (min_samples : nat).

(** [radius_neighbors]: the indices, from [j] on, of the samples of [X]
    within [eps] of [x]. *)
Fixpoint neighbors_from (j : nat) (x : P) (X : list P) : list nat :=
  match X with
  | [] => []
  | y :: X' =>
      if Qleb (metric x y) eps
      then j :: neighbors_from (S j) x X'
      else neighbors_from (S j) x X'
  end.

Definition neighborhoods (X : list P) : list (list nat) :=
  (fun x => neighbors_from 0 x X) <$> X.

Definition core_samples (X : list P) : list bool :=
  (fun neighbors => (min_samples <=? length neighbors)%nat) <$> neighborhoods X.

Definition unlabelled (labels : list Z) (v : nat) : bool :=
  bool_decide (labels !! v = Some (-1)%Z).

(** [for v in neighb: if labels[v] == -1: push(stack, v)]; the head of the
    list is the back of the stack. *)
Definition push_unlabelled (labels : list Z) (stack neighb : list nat)
  : list nat :=
  foldl (fun st v => if unlabelled labels v then v :: st else st) stack neighb.

(** The [while True] loop of [dbscan_inner], one iteration per unit of
    fuel; [None] when the fuel runs out. *)
Fixpoint expand (fuel : nat) (is_core : list bool) (nbs : list (list nat))
  (label_num : Z) (i : nat) (stack : list nat) (labels : list Z)
  : option (list Z) :=
  match fuel with
  | O => None
  | S fuel' =>
      let labels' :=
        if unlabelled labels i then <[ i := label_num ]> labels else labels in
      let stack' :=
        if unlabelled labels i && default false (is_core !! i)
        then push_unlabelled labels' stack (default [] (nbs !! i))
        else stack in
      match stack' with
      | [] => Some labels'
      | v :: rest => expand fuel' is_core nbs label_num v rest labels'
      end
  end.

(** The [for i in range(n)] loop of [dbscan_inner]. *)
Fixpoint dbscan_inner (fuel : nat) (is_core : list bool) (nbs : list (list nat))
  (todo : list nat) (label_num : Z) (labels : list Z) : option (list Z) :=
  match todo with
  | [] => Some labels
  | i :: rest =>
      if negb (unlabelled labels i) || negb (default false (is_core !! i))
      then dbscan_inner fuel is_core nbs rest label_num labels
      else
        labels' ← expand fuel is_core nbs label_num i [] labels;
        dbscan_inner fuel is_core nbs rest (label_num + 1)%Z labels'
  end.

(** Enough iterations for any search on [n] samples: each iteration
    either labels a sample, pushing at most [n] indices, or pops one. *)
Definition enough_fuel (n : nat) : nat := (n * (n + 1) + 1)%nat.

(** [DBSCAN(eps, min_samples, metric).fit(X).labels_]. *)
Definition dbscan_labels (X : list P) : option (list Z) :=
  dbscan_inner (enough_fuel (length X)) (core_samples X) (neighborhoods X)
               (seq 0 (length X)) 0%Z (replicate (length X) (-1)%Z).

End Dbscan.

(** [clusters[label].append(point)] on a [defaultdict(list)]: keys in the
    order of their first use. *)
Fixpoint group_append (label : Z) (point : GeoPoint)
  (clusters : list (Z * list GeoPoint)) : list (Z * list GeoPoint) :=
  match clusters with
  | [] => [(label, [point])]
  | (l, g) :: rest =>
      if (l =? label)%Z then (l, g ++ [point]) :: rest
      else (l, g) :: group_append label point rest
  end.

Definition group_by_label (labelled : list (Z * GeoPoint))
  : list (Z * list GeoPoint) :=
  foldl (fun clusters lp => group_append lp.1 lp.2 clusters) [] labelled.

Definition radians_coords (points : list GeoPoint) : list (Q * Q) :=
  (fun p => (radians (p_latitude p), radians (p_longitude p))) <$> points.

(** [cluster_points]: the groups as (label, points) in the order the
    dictionary holds them; [None] only if the search ran out of fuel. *)
Definition cluster_points (points : list GeoPoint)
  : option (list (Z * list GeoPoint)) :=
  match points with
  | [] => Some []
  | _ =>
      labels ← dbscan_labels central_angle (5 / 6371) 1 (radians_coords points);
      Some (group_by_label (zip labels points))
  end.

End Geometry.

(** *** The whole pass *)

Section Pipeline.
Variable requests_get : string -> Q -> http_outcome.
Variable py_float : string -> option Q.
Variable radians : Q -> Q.
Variable central_angle : Q * Q -> Q * Q -> Q.

(** Building a [CompositeHotspotOutput] from the dictionary: the
    emotions, the panic level and the event types are required fields. *)
Definition validate_output (hotspot_data : HotspotData) : result HotspotData :=
  match out_aggregated_emotions hotspot_data,
        out_average_panic_level hotspot_data,
        out_event_types hotspot_data with
  | Some _, Some _, Some _ => Ok hotspot_data
  | _, _, _ => Raise ValueError
  end.

(** The loop over [clusters.values()]: a group whose processing raises is
    logged and skipped; what it had already written stays written. *)
Fixpoint process_groups (db : list CompositeHotspot)
  (clusters : list (Z * list GeoPoint))
  : list HotspotData * list CompositeHotspot :=
  match clusters with
  | [] => ([], db)
  | (_, cluster_points) :: rest =>
      match update_or_create_composite_hotspot radians central_angle
              db cluster_points with
      | Ok (db', hotspot_data) =>
          let '(output_list, db'') := process_groups db' rest in
          (match validate_output hotspot_data with
           | Ok out => out :: output_list
           | Raise _ => output_list
           end, db'')
      | Raise _ => process_groups db rest
      end
  end.

Definition is_pending (h : Hotspot) : bool :=
  match hs_status h with
  | pending => true
  | _ => false
  end.

Definition set_status (status : AggregateStatus) (h : Hotspot) : Hotspot :=
  mkHotspot (hs_location h) status (hs_report_id h) (hs_confidence h)
            (hs_emotions h) (hs_panic_level h) (hs_event_type h)
            (hs_severity h) (hs_risk_level h).

(** The loop "Mark source hotspots as aggregated": the payload of every
    point, after the assignment. *)
Definition mark_aggregated (points : list GeoPoint) : list Hotspot :=
  (fun p =>
     if String.eqb (p_type p) "human" then set_status aggregated (p_payload p)
     else if String.eqb (p_type p) "disaster"
          then set_status aggregated (p_payload p)
          else p_payload p) <$> points.

(** [generate_map_json_with_persistence] on the two tables of source
    hotspots, the geocoder and the table of composite hotspots: the output
    list, the table afterwards, the geocoder afterwards and the source
    records whose status was set. [None] only if the label search ran out
    of fuel. *)
Definition generate_map_json_with_persistence
  (human_table disaster_table : list Hotspot) (st : GeoState)
  (db : list CompositeHotspot)
  : option (list HotspotData * list CompositeHotspot * GeoState * list Hotspot) :=
  let humans := filter (fun h => is_pending h = true) human_table in
  let disasters := filter (fun d => is_pending d = true) disaster_table in
  let '(points, st') :=
    assemble_unified_points requests_get py_float humans disasters st in
  match points with
  | [] => Some ([], db, st', [])
  | _ =>
      clusters ← cluster_points radians central_angle points;
      let '(output_list, db') := process_groups db clusters in
      Some (output_list, db', st', mark_aggregated points)
  end.

End Pipeline.

End Detecter.

(** ** Stand-ins for the library routines, used to run the model

    The theorems below hold for every [token_set_ratio] and [strptime].
    To evaluate the model on concrete batches, these two functions agree
    with the libraries on the inputs the examples use. *)

Module Standins.

(** Agrees with [fuzz.token_set_ratio] on two equal non-blank strings
    (score 100) and on two strings that share no character (score 0). *)
Definition ratio_equal_or_disjoint (a b : string) : Q :=
  if String.eqb a b then inject_Z 100 else 0%Q.

Definition digit (c : ascii) : option Z :=
  let n := nat_of_ascii c in
  if (48 <=? n)%nat && (n <=? 57)%nat then Some (Z.of_nat (n - 48)) else None.

Definition two_digits (a b : ascii) : option Z :=
  x ← digit a; y ← digit b; Some (10 * x + y)%Z.

Definition is_leap (y : Z) : bool :=
  ((y mod 4 =? 0) && negb (y mod 100 =? 0) || (y mod 400 =? 0))%Z.

Definition days_in_month (y m : Z) : Z :=
  if (m =? 2)%Z then (if is_leap y then 29 else 28)%Z
  else if ((m =? 4) || (m =? 6) || (m =? 9) || (m =? 11))%Z then 30%Z
  else 31%Z.

(** Days since 1970-01-01 in the proleptic Gregorian calendar. *)
Definition days_from_civil (y m d : Z) : Z :=
  let y' := (if m <=? 2 then y - 1 else y)%Z in
  let era := (y' / 400)%Z in
  let yoe := (y' - era * 400)%Z in
  let doy := ((153 * (if 2 <? m then m - 3 else m + 9) + 2) / 5 + d - 1)%Z in
  let doe := (yoe * 365 + yoe / 4 - yoe / 100 + doy)%Z in
  (era * 146097 + doe - 719468)%Z.

(** Agrees with [datetime.strptime(t, "%Y-%m-%dT%H:%M:%SZ")] on
    zero-padded timestamps of exactly that shape. *)
Definition iso_seconds (t : string) : option Z :=
  match String.list_ascii_of_string t with
  | [y1; y2; y3; y4; s1; m1; m2; s2; d1; d2; s3; h1; h2; s4; n1; n2; s5; c1; c2; s6] =>
      if Ascii.eqb s1 "-" && Ascii.eqb s2 "-" && Ascii.eqb s3 "T"
         && Ascii.eqb s4 ":" && Ascii.eqb s5 ":" && Ascii.eqb s6 "Z"
      then
        yh ← two_digits y1 y2; yl ← two_digits y3 y4;
        mo ← two_digits m1 m2; da ← two_digits d1 d2;
        ho ← two_digits h1 h2; mi ← two_digits n1 n2; se ← two_digits c1 c2;
        let y := (100 * yh + yl)%Z in
        if ((1 <=? y) && (1 <=? mo) && (mo <=? 12) && (1 <=? da)
            && (da <=? days_in_month y mo) && (ho <=? 23) && (mi <=? 59)
            && (se <=? 59))%Z
        then Some (((days_from_civil y mo da * 24 + ho) * 60 + mi) * 60 + se)%Z
        else None
      else None
  | _ => None
  end.

(** [math.radians] with 355/113 for pi. *)
Definition radians_approx (deg : Q) : Q := (deg * (355 # 113) / inject_Z 180)%Q.

(** A stand-in for the central angle that is exact where the examples use
    it: 0 for two identical points. Elsewhere it is the sum of the
    coordinate differences, which is symmetric and never below the true
    angle divided by two. *)
Definition central_angle_taxicab (a b : Q * Q) : Q :=
  (Qabs (a.1 - b.1) + Qabs (a.2 - b.2))%Q.

End Standins.

(** * Properties *)

Lemma Qleb_le x y : Qleb x y = true <-> (x <= y)%Q.
Proof. apply Qle_bool_iff. Qed.

Lemma Qltb_lt x y : Qltb x y = true <-> (x < y)%Q.
Proof.
  unfold Qltb. rewrite negb_true_iff. split.
  - intros H. apply Qnot_le_lt. intros Hle.
    apply Qle_bool_iff in Hle. congruence.
  - intros H. destruct (Qle_bool y x) eqn:E; [|done].
    apply Qle_bool_iff in E. exfalso. eapply Qlt_not_le; eauto.
Qed.

Lemma Qltb_ge x y : Qltb x y = false <-> (y <= x)%Q.
Proof. unfold Qltb. rewrite negb_false_iff. apply Qle_bool_iff. Qed.

Lemma Qeqb_eq x y : Qeqb x y = true <-> (x == y)%Q.
Proof. apply Qeq_bool_iff. Qed.

(** ** The clustering loop *)

Section AnchorClusteringFacts.
Context {A : Type} (matches : A -> A -> bool).

Lemma find_cluster_lt x (cs : list (list A)) k :
  find_cluster matches x cs = Some k -> k < length cs.
Proof.
  revert k. induction cs as [|c cs IH]; intros k; simpl; [done|].
  destruct c as [|rep c].
  - destruct (find_cluster matches x cs) as [k'|]; simpl; [|done].
    intros [= <-]. specialize (IH k' eq_refl). lia.
  - destruct (matches x rep).
    + intros [= <-]. lia.
    + destruct (find_cluster matches x cs) as [k'|]; simpl; [|done].
      intros [= <-]. specialize (IH k' eq_refl). lia.
Qed.

Lemma concat_alter_snoc (cs : list (list A)) k x :
  k < length cs ->
  concat (alter (fun c => c ++ [x]) k cs) ≡ₚ concat cs ++ [x].
Proof.
  revert k. induction cs as [|c cs IH]; intros k Hk; simpl in *; [lia|].
  destruct k as [|k].
  - change (alter (fun c0 => c0 ++ [x]) 0 (c :: cs)) with ((c ++ [x]) :: cs).
    simpl. rewrite <- !(assoc_L (++)). f_equiv. apply Permutation_app_comm.
  - change (alter (fun c0 => c0 ++ [x]) (S k) (c :: cs))
      with (c :: alter (fun c0 => c0 ++ [x]) k cs).
    simpl. rewrite IH by lia. by rewrite (assoc_L (++)).
Qed.

Lemma place_perm (cs : list (list A)) x :
  concat (place matches cs x) ≡ₚ concat cs ++ [x].
Proof.
  unfold place. destruct (find_cluster matches x cs) as [k|] eqn:E.
  - apply concat_alter_snoc. by eapply find_cluster_lt.
  - rewrite concat_app. by simpl.
Qed.

Lemma cluster_loop_perm (cs : list (list A)) xs :
  concat (cluster_loop matches cs xs) ≡ₚ concat cs ++ xs.
Proof.
  revert cs. induction xs as [|x xs IH]; intros cs; simpl.
  - by rewrite (right_id_L [] (++)).
  - unfold cluster_loop in *. simpl. rewrite IH, place_perm.
    by rewrite <- (assoc_L (++)).
Qed.

(** Every cluster is a subsequence of what has been processed. *)
Lemma place_sublist pre (cs : list (list A)) x :
  Forall (fun c => c `sublist_of` pre) cs ->
  Forall (fun c => c `sublist_of` pre ++ [x]) (place matches cs x).
Proof.
  intros H. unfold place.
  assert (Hw : Forall (fun c => c `sublist_of` pre ++ [x]) cs).
  { eapply Forall_impl; [exact H|]. intros c Hc. simpl in *.
    by apply sublist_inserts_r. }
  destruct (find_cluster matches x cs) as [k|].
  - apply Forall_lookup. intros i c Hi.
    rewrite list_lookup_alter in Hi. destruct (decide (k = i)) as [->|].
    + destruct (cs !! i) as [c0|] eqn:E; simpl in Hi; [|done].
      injection Hi as <-. apply sublist_app; [|done].
      by eapply (Forall_lookup_1 _ _ _ _ H).
    + by eapply (Forall_lookup_1 _ _ _ _ Hw).
  - apply Forall_app. split; [done|]. constructor; [|done].
    by apply sublist_inserts_l.
Qed.

Lemma cluster_loop_sublist pre (cs : list (list A)) xs :
  Forall (fun c => c `sublist_of` pre) cs ->
  Forall (fun c => c `sublist_of` pre ++ xs) (cluster_loop matches cs xs).
Proof.
  revert pre cs. induction xs as [|x xs IH]; intros pre cs H; simpl.
  - by rewrite (right_id_L [] (++)).
  - unfold cluster_loop in *. simpl.
    replace (pre ++ x :: xs) with ((pre ++ [x]) ++ xs)
      by (by rewrite <- (assoc_L (++))).
    apply IH. by apply place_sublist.
Qed.

Lemma place_nonempty (cs : list (list A)) x :
  Forall (fun c => c <> []) cs -> Forall (fun c => c <> []) (place matches cs x).
Proof.
  intros H. unfold place. destruct (find_cluster matches x cs) as [k|].
  - apply Forall_lookup. intros i c Hi.
    rewrite list_lookup_alter in Hi. destruct (decide (k = i)) as [->|].
    + destruct (cs !! i) as [c0|]; simpl in Hi; [|done].
      injection Hi as <-. by destruct c0.
    + by eapply (Forall_lookup_1 _ _ _ _ H).
  - apply Forall_app. split; [done|]. by constructor.
Qed.

Lemma cluster_loop_nonempty (cs : list (list A)) xs :
  Forall (fun c => c <> []) cs ->
  Forall (fun c => c <> []) (cluster_loop matches cs xs).
Proof.
  revert cs. induction xs as [|x xs IH]; intros cs H; simpl; [done|].
  unfold cluster_loop in *. simpl. apply IH. by apply place_nonempty.
Qed.

End AnchorClusteringFacts.

(** Clusters only grow at their end: anchors never change and no cluster
    is removed, reordered or merged. *)
Section AnchorStability.
Context {A : Type} (matches : A -> A -> bool).

Definition grows (cs cs' : list (list A)) : Prop :=
  forall k c, cs !! k = Some c -> exists c', cs' !! k = Some c' /\ c `prefix_of` c'.

Lemma grows_refl cs : grows cs cs.
Proof. intros k c H. by exists c. Qed.

Lemma grows_trans cs1 cs2 cs3 : grows cs1 cs2 -> grows cs2 cs3 -> grows cs1 cs3.
Proof.
  intros H12 H23 k c Hk. destruct (H12 k c Hk) as (c' & Hk' & Hp).
  destruct (H23 k c' Hk') as (c'' & Hk'' & Hp').
  exists c''. split; [done|]. by etrans.
Qed.

Lemma place_grows cs x : grows cs (place matches cs x).
Proof.
  intros k c Hk. unfold place.
  destruct (find_cluster matches x cs) as [i|].
  - rewrite list_lookup_alter. destruct (decide (i = k)) as [->|].
    + rewrite Hk. simpl. exists (c ++ [x]). split; [done|]. by apply prefix_app_r.
    + by exists c.
  - exists c. split; [|done]. rewrite lookup_app_l; [done|].
    by eapply lookup_lt_Some.
Qed.

Lemma cluster_loop_grows cs xs : grows cs (cluster_loop matches cs xs).
Proof.
  revert cs. induction xs as [|x xs IH]; intros cs; [apply grows_refl|].
  unfold cluster_loop in *. simpl.
  eapply grows_trans; [apply place_grows|apply IH].
Qed.

Lemma cluster_loop_app cs xs ys :
  cluster_loop matches cs (xs ++ ys)
  = cluster_loop matches (cluster_loop matches cs xs) ys.
Proof. unfold cluster_loop. apply fold_left_app. Qed.

Lemma find_cluster_None_cons x c cs :
  c <> [] -> find_cluster matches x (c :: cs) = None ->
  (exists a c', c = a :: c' /\ matches x a = false)
  /\ find_cluster matches x cs = None.
Proof.
  intros Hc. simpl. destruct c as [|a c']; [done|].
  destruct (matches x a) eqn:Ha; [done|].
  destruct (find_cluster matches x cs); [done|]. intros _. split; [|done].
  exists a, c'. by split.
Qed.

(** An element that matches no anchor of [cs0] and matches the anchor of
    the cluster opened right after them is sent to that cluster, whatever
    has been appended to the clusters in between. *)
Lemma find_cluster_grown x r e cs0 cs1 :
  Forall (fun c => c <> []) cs0 ->
  grows cs0 cs1 ->
  cs1 !! length cs0 = Some (r :: e) ->
  find_cluster matches x cs0 = None ->
  matches x r = true ->
  find_cluster matches x cs1 = Some (length cs0).
Proof.
  revert cs1. induction cs0 as [|c cs0 IH]; intros cs1 Hne Hg Hk Hnone Hm.
  - destruct cs1 as [|c1 cs1]; [done|]. simpl in Hk. injection Hk as ->.
    simpl. by rewrite Hm.
  - inversion Hne as [|? ? Hc Hne']; subst.
    apply find_cluster_None_cons in Hnone as [(a & c' & -> & Ha) Hnone]; [|done].
    destruct (Hg 0 (a :: c') eq_refl) as (c1 & H0 & [t ->]).
    destruct cs1 as [|c1' cs1]; [done|]. simpl in H0. injection H0 as ->.
    simpl. rewrite Ha.
    rewrite (IH cs1); [done|done| |done|done|done].
    intros k c Hkc. apply (Hg (S k) c Hkc).
Qed.

End AnchorStability.

(** Clustering commutes with relabelling the elements. *)
Lemma find_cluster_fmap {A B} (f : B -> A) (matches : A -> A -> bool) x
  (cs : list (list B)) :
  find_cluster matches (f x) (fmap (M:=list) f <$> cs)
  = find_cluster (fun a b => matches (f a) (f b)) x cs.
Proof.
  induction cs as [|c cs IH]; [done|].
  rewrite fmap_cons. destruct c as [|rep c]; simpl; rewrite <- IH; done.
Qed.

Lemma place_fmap {A B} (f : B -> A) (matches : A -> A -> bool) x
  (cs : list (list B)) :
  place matches (fmap (M:=list) f <$> cs) (f x)
  = fmap (M:=list) f <$> place (fun a b => matches (f a) (f b)) cs x.
Proof.
  unfold place. rewrite find_cluster_fmap.
  destruct (find_cluster _ x cs) as [k|].
  - symmetry. apply list_fmap_alter. apply Forall_true. intros c.
    by rewrite fmap_app.
  - by rewrite fmap_app.
Qed.

Lemma cluster_loop_fmap {A B} (f : B -> A) (matches : A -> A -> bool)
  (cs : list (list B)) xs :
  cluster_loop matches (fmap (M:=list) f <$> cs) (f <$> xs)
  = fmap (M:=list) f <$> cluster_loop (fun a b => matches (f a) (f b)) cs xs.
Proof.
  revert cs. induction xs as [|x xs IH]; intros cs; simpl; [done|].
  unfold cluster_loop in *. simpl. by rewrite place_fmap, IH.
Qed.

Lemma StronglySorted_sublist {A} (R : relation A) (l k : list A) :
  l `sublist_of` k -> StronglySorted R k -> StronglySorted R l.
Proof.
  induction 1 as [|x l k Hs IH|x l k Hs IH]; intros Hk; [done|..].
  - inversion Hk as [|? ? Hk' Hx]; subst. constructor; [by apply IH|].
    apply Forall_forall. intros y Hy.
    rewrite Forall_forall in Hx. apply Hx. by eapply elem_of_sublist.
  - inversion Hk; subst. by apply IH.
Qed.

Lemma StronglySorted_seq a n : StronglySorted lt (seq a n).
Proof.
  revert a. induction n as [|n IH]; intros a; simpl; constructor; [apply IH|].
  apply Forall_forall. intros y Hy. apply elem_of_seq in Hy. lia.
Qed.

(** ** [max] with a key *)

Section PyMaxFacts.
Context {A K : Type} (key : A -> K) (ltb : K -> K -> bool).
Hypothesis ltb_asym : forall a b, ltb a b = true -> ltb b a = false.
Hypothesis leb_ltb_trans :
  forall a b c, ltb b a = false -> ltb b c = true -> ltb a c = true.

Lemma max_from_snoc best rest y :
  max_from key ltb best (rest ++ [y])
  = let m := max_from key ltb best rest in
    if ltb (key m) (key y) then y else m.
Proof.
  revert best. induction rest as [|x rest IH]; intros best; simpl; [done|].
  apply IH.
Qed.

(** The result is the first element with the greatest key. *)
Lemma max_from_first_max best rest :
  exists i,
    (best :: rest) !! i = Some (max_from key ltb best rest)
    /\ (forall r, r ∈ best :: rest ->
          ltb (key (max_from key ltb best rest)) (key r) = false)
    /\ (forall j r, j < i -> (best :: rest) !! j = Some r ->
          ltb (key r) (key (max_from key ltb best rest)) = true).
Proof.
  induction rest as [|y rest IH] using rev_ind.
  - exists 0. simpl. split_and!; [done| |intros; lia].
    intros r ->%list_elem_of_singleton.
    destruct (ltb (key best) (key best)) eqn:E; [|done].
    by rewrite (ltb_asym _ _ E) in E.
  - destruct IH as (i & Hi & Hle & Hlt).
    rewrite max_from_snoc. cbv zeta.
    set (m := max_from key ltb best rest) in *.
    destruct (ltb (key m) (key y)) eqn:E.
    + exists (length (best :: rest)). split_and!.
      * rewrite app_comm_cons. by rewrite list_lookup_middle.
      * intros r Hr. rewrite app_comm_cons in Hr.
        apply elem_of_app in Hr as [Hr| ->%list_elem_of_singleton].
        -- apply ltb_asym. eapply leb_ltb_trans; [|exact E]. by apply Hle.
        -- destruct (ltb (key y) (key y)) eqn:E'; [|done].
           by rewrite (ltb_asym _ _ E') in E'.
      * intros j r Hj Hjr. rewrite app_comm_cons in Hjr.
        rewrite lookup_app_l in Hjr by done.
        eapply leb_ltb_trans; [|exact E]. apply Hle.
        by eapply list_elem_of_lookup_2.
    + exists i. split_and!.
      * rewrite app_comm_cons. rewrite lookup_app_l; [done|].
        by eapply lookup_lt_Some.
      * intros r Hr. rewrite app_comm_cons in Hr.
        apply elem_of_app in Hr as [Hr| ->%list_elem_of_singleton]; [|done].
        by apply Hle.
      * intros j r Hj Hjr. apply (Hlt j r Hj).
        rewrite app_comm_cons in Hjr. rewrite lookup_app_l in Hjr; [done|].
        apply lookup_lt_Some in Hi. lia.
Qed.

End PyMaxFacts.

Lemma Qltb_asym a b : Qltb a b = true -> Qltb b a = false.
Proof. rewrite Qltb_lt, Qltb_ge. apply Qlt_le_weak. Qed.

Lemma Qleb_ltb_trans a b c :
  Qltb b a = false -> Qltb b c = true -> Qltb a c = true.
Proof. rewrite Qltb_ge, !Qltb_lt. apply Qle_lt_trans. Qed.

Module CheckerSpec.
Import Checker.

Section Clusters.
Variable token_set_ratio : string -> string -> Q.
Variable strptime : string -> option Z.
Variable cfg : Config.

Abbreviation create := (_create_clusters token_set_ratio strptime cfg).
Abbreviation joins := (Checker.joins token_set_ratio strptime cfg).

(** The batch with every report tagged by its position. *)
Definition tagged (reports : list Report) : list (nat * Report) :=
  zip (seq 0 (length reports)) reports.

Definition tagged_clusters (reports : list Report) : list (list (nat * Report)) :=
  cluster_loop (fun a b => joins a.2 b.2) [] (tagged reports).

Lemma tagged_clusters_snd reports :
  fmap (M:=list) snd <$> tagged_clusters reports = create reports.
Proof.
  unfold tagged_clusters, _create_clusters.
  rewrite <- (cluster_loop_fmap snd joins [] (tagged reports)).
  unfold tagged. by rewrite snd_zip by (by rewrite length_seq).
Qed.

Lemma tagged_lookup reports i r :
  (i, r) ∈ tagged reports -> reports !! i = Some r.
Proof.
  intros [j Hj]%list_elem_of_lookup. apply lookup_zip_Some in Hj as [Hs Hr].
  apply lookup_seq in Hs as [-> _]. done.
Qed.

(** C1. For every batch, the clusters returned by [_create_clusters] are
    made of positions of the batch: every position of the batch occurs in
    exactly one cluster and once there (the clusters are pairwise disjoint
    and their union is the batch), each cluster lists its positions in
    increasing order (arrival order is kept), and no cluster is empty. *)
Theorem create_clusters_partition (reports : list Report) :
  exists positions : list (list nat),
    Forall2 (Forall2 (fun i r => reports !! i = Some r))
            positions (create reports)
    /\ concat positions ≡ₚ seq 0 (length reports)
    /\ NoDup (concat positions)
    /\ Forall (StronglySorted lt) positions
    /\ Forall (fun c => c <> []) positions.
Proof.
  set (pcs := tagged_clusters reports).
  assert (Hperm : concat pcs ≡ₚ tagged reports).
  { unfold pcs, tagged_clusters. by rewrite cluster_loop_perm. }
  assert (Hsub : Forall (fun c => c `sublist_of` tagged reports) pcs).
  { unfold pcs, tagged_clusters.
    apply (cluster_loop_sublist _ [] [] (tagged reports)). constructor. }
  assert (Hfst : (tagged reports).*1 = seq 0 (length reports)).
  { unfold tagged. by rewrite fst_zip by (by rewrite length_seq). }
  assert (Hcat : concat (fmap (M:=list) fst <$> pcs) ≡ₚ seq 0 (length reports)).
  { rewrite <- Hfst, <- Hperm. clear. induction pcs as [|c cs IH]; [done|].
    simpl. by rewrite fmap_app, IH. }
  exists (fmap (M:=list) fst <$> pcs). split_and!.
  - rewrite <- tagged_clusters_snd. fold pcs.
    apply Forall2_fmap_2. apply Forall_Forall2_diag.
    eapply Forall_impl; [exact Hsub|]. intros c Hc. simpl in Hc.
    apply Forall2_fmap_2. apply Forall_Forall2_diag.
    apply Forall_forall. intros [i r] Hir. simpl.
    apply tagged_lookup. by eapply elem_of_sublist.
  - done.
  - rewrite Hcat. apply NoDup_seq.
  - apply Forall_fmap. eapply Forall_impl; [exact Hsub|].
    intros c Hc. simpl in *.
    apply (StronglySorted_sublist _ _ (seq 0 (length reports))).
    + rewrite <- Hfst. by apply fmap_sublist.
    + apply StronglySorted_seq.
  - apply Forall_fmap.
    assert (Hne : Forall (fun c => c <> []) pcs).
    { unfold pcs, tagged_clusters. apply cluster_loop_nonempty. constructor. }
    eapply Forall_impl; [exact Hne|]. intros c Hc. simpl. by destruct c.
Qed.

(** Two reports that both carry event_type, location and timestamp, with
    both similarities at or above their thresholds and the timestamps
    within the window; [report] is the one being placed, [rep] the one it
    is compared with. *)
Definition matching_pair (report rep : Report) : bool :=
  both (event_type report) (event_type rep)
  && both (location report) (location rep)
  && both (timestamp report) (timestamp rep)
  && Qleb (event_type_similarity_threshold cfg)
          (similarity token_set_ratio (event_type report) (event_type rep))
  && Qleb (location_similarity_threshold cfg)
          (similarity token_set_ratio (location report) (location rep))
  && time_within_window strptime cfg (timestamp report) (timestamp rep).

Lemma matching_pair_joins report rep :
  matching_pair report rep = true -> joins report rep = true.
Proof.
  unfold matching_pair. rewrite !andb_true_iff.
  intros [[[[[He Hl] Ht] Hse] Hsl] Hw].
  unfold Checker.joins, total_fields, match_count,
    event_type_field, location_field, timestamp_field, description_field.
  rewrite He, Hl, Ht, Hse, Hsl, Hw. simpl.
  destruct (both (description report) (description rep)); simpl; [|done].
  by destruct (Qleb _ _).
Qed.

(** C3, as the code has it. Let two reports carry event_type, location
    and timestamp, with both similarities at or above the thresholds and
    timestamps within the window. If the earlier one opens a cluster (it
    joins none of the clusters that exist when it arrives) and the later one
    passes the join test against none of the anchors of those older
    clusters, then the later report lands in the cluster whose anchor is the
    earlier one, whatever else the batch contains before, between and after
    them. *)
Theorem matching_pair_joins_anchor (pre mid post : list Report) (r1 r2 : Report) :
  matching_pair r2 r1 = true ->
  find_cluster joins r1 (create pre) = None ->
  find_cluster joins r2 (create pre) = None ->
  exists c1 c2,
    create (pre ++ r1 :: mid ++ r2 :: post) !! length (create pre)
    = Some (r1 :: c1 ++ r2 :: c2).
Proof.
  intros Hm%matching_pair_joins H1 H2.
  unfold _create_clusters in *.
  set (cs0 := cluster_loop joins [] pre) in *.
  assert (Hne : Forall (fun c => c <> []) cs0).
  { apply cluster_loop_nonempty. constructor. }
  rewrite cluster_loop_app. fold cs0.
  change (r1 :: mid ++ r2 :: post) with ([r1] ++ mid ++ [r2] ++ post).
  rewrite !cluster_loop_app.
  assert (E1 : cluster_loop joins cs0 [r1] = cs0 ++ [[r1]]).
  { unfold cluster_loop. simpl. unfold place. by rewrite H1. }
  rewrite E1.
  set (cs1 := cluster_loop joins (cs0 ++ [[r1]]) mid).
  assert (Hg1 : grows (cs0 ++ [[r1]]) cs1) by apply cluster_loop_grows.
  destruct (Hg1 (length cs0) [r1]) as (ck & Hk & [e ->]).
  { by rewrite list_lookup_middle. }
  assert (Hf : find_cluster joins r2 cs1 = Some (length cs0)).
  { apply (find_cluster_grown joins r2 r1 e cs0 cs1); try done.
    intros k c Hkc. apply Hg1. rewrite lookup_app_l; [done|].
    by eapply lookup_lt_Some. }
  assert (E2 : cluster_loop joins cs1 [r2]
               = alter (fun c => c ++ [r2]) (length cs0) cs1).
  { unfold cluster_loop. simpl. unfold place. by rewrite Hf. }
  rewrite E2.
  set (cs2 := alter (fun c => c ++ [r2]) (length cs0) cs1).
  assert (Hk2 : cs2 !! length cs0 = Some (([r1] ++ e) ++ [r2])).
  { unfold cs2. by rewrite list_lookup_alter_eq, Hk. }
  destruct (cluster_loop_grows joins cs2 post _ _ Hk2) as (c & Hc & [t ->]).
  exists e, t. rewrite Hc. f_equal. simpl. by rewrite <- (assoc_L (++)).
Qed.

End Clusters.

Lemma passes_gate_false trusted total :
  passes_gate trusted total = false <-> trusted = 0 /\ total < 2.
Proof.
  unfold passes_gate.
  destruct (1 <=? trusted) eqn:E1, (total =? 1) eqn:E2, (2 <=? total) eqn:E3,
    (trusted =? 0) eqn:E4, (total <? 2) eqn:E5; simpl;
    repeat match goal with
    | H : (_ <=? _) = true |- _ => apply Nat.leb_le in H
    | H : (_ <=? _) = false |- _ => apply Nat.leb_gt in H
    | H : (_ <? _) = true |- _ => apply Nat.ltb_lt in H
    | H : (_ <? _) = false |- _ => apply Nat.ltb_ge in H
    | H : (_ =? _) = true |- _ => apply Nat.eqb_eq in H
    | H : (_ =? _) = false |- _ => apply Nat.eqb_neq in H
    end; split; intros; try done; try lia.
Qed.

Lemma process_clusters_single cfg cluster :
  process_clusters cfg [cluster]
  = (emitted <-- process_cluster cfg cluster ;;
     Ok (match emitted with Some r => [r] | None => [] end)).
Proof. simpl. by destruct (process_cluster cfg cluster) as [[r|]|e]. Qed.

(** C2. [process_clusters] emits nothing for a cluster exactly when it
    has no report from a trusted source and fewer than two reports.
    Otherwise it emits exactly one report: the report of the cluster with
    the greatest confidence (a missing confidence counts as 0), the first
    such report when several tie, unchanged but for its reporter, which
    becomes "unknown" when it was empty, and its veracity flag, which
    becomes "verified". *)
Theorem process_clusters_gate (cfg : Config) (cluster : list Report) :
  (process_clusters cfg [cluster] = Ok []
   <-> trusted_count cfg cluster = 0 /\ length cluster < 2)
  /\ (~ (trusted_count cfg cluster = 0 /\ length cluster < 2) ->
      exists i best,
        cluster !! i = Some best
        /\ (forall r, r ∈ cluster -> (confidence_key r <= confidence_key best)%Q)
        /\ (forall j r, j < i -> cluster !! j = Some r ->
              (confidence_key r < confidence_key best)%Q)
        /\ process_clusters cfg [cluster] = Ok [mark_verified best]
        /\ veracity_flag (mark_verified best) = Some "verified"
        /\ reporter (mark_verified best)
           = (if PyStr.truthy (reporter best) then reporter best
              else Some "unknown")
        /\ confidence (mark_verified best) = confidence best
        /\ event_type (mark_verified best) = event_type best
        /\ location (mark_verified best) = location best
        /\ timestamp (mark_verified best) = timestamp best
        /\ description (mark_verified best) = description best
        /\ source (mark_verified best) = source best
        /\ media_urls (mark_verified best) = media_urls best).
Proof.
  rewrite process_clusters_single. unfold process_cluster.
  destruct (passes_gate (trusted_count cfg cluster) (length cluster)) eqn:G.
  - assert (Hacc : ~ (trusted_count cfg cluster = 0 /\ length cluster < 2)).
    { intros H%passes_gate_false. congruence. }
    destruct cluster as [|r0 rest].
    { exfalso. apply Hacc. by split; simpl; [|lia]. }
    split; [split; [discriminate|by intros ?]|].
    intros _.
    destruct (max_from_first_max confidence_key Qltb Qltb_asym Qleb_ltb_trans
                r0 rest) as (i & Hi & Hle & Hlt).
    exists i, (max_from confidence_key Qltb r0 rest). simpl.
    split_and!; try done.
    + intros r Hr. apply Qltb_ge. by apply Hle.
    + intros j r Hj Hjr. apply Qltb_lt. by eapply Hlt.
  - apply passes_gate_false in G. simpl. split; [done|]. intros H. by destruct H.
Qed.

End CheckerSpec.

(** ** The checker on concrete batches *)

Module CheckerExamples.
Import Checker CheckerSpec Standins.

Definition ts_noon : string := "2025-09-14T12:00:00Z".
Definition ts_quarter_past : string := "2025-09-14T12:15:00Z".

Definition report_lima : Report :=
  mkReport (Some "fire") (Some "Lima") None (Some "smoke")
           (Some "twitter") [] None (Some (1 # 2)) None.

Definition report_perth_hail : Report :=
  mkReport (Some "fire") (Some "Perth") (Some ts_noon) (Some "hail")
           (Some "twitter_user") [] None (Some (7 # 10)) None.

Definition report_perth_smoke : Report :=
  mkReport (Some "fire") (Some "Perth") (Some ts_quarter_past) (Some "smoke")
           (Some "Official News Agency") [] None (Some (9 # 10)) None.

Definition report_perth_plain : Report :=
  mkReport (Some "fire") (Some "Perth") (Some ts_quarter_past) None
           (Some "blog") [] None None None.

Abbreviation create :=
  (_create_clusters ratio_equal_or_disjoint iso_seconds default_config).
Abbreviation matching :=
  (matching_pair ratio_equal_or_disjoint iso_seconds default_config).

(** C3 fails as stated: the two Perth reports agree on event type and
    location and are 15 minutes apart, yet the second one is compared with
    the anchor of the older Lima cluster first, matches it on event type and
    description, and joins it. *)
Lemma same_cluster_counterexample :
  matching report_perth_smoke report_perth_hail = true
  /\ matching report_perth_hail report_perth_smoke = true
  /\ create [report_lima; report_perth_hail; report_perth_smoke]
     = [[report_lima; report_perth_smoke]; [report_perth_hail]]
  /\ ~ (exists c,
         c ∈ create [report_lima; report_perth_hail; report_perth_smoke]
         /\ report_perth_hail ∈ c /\ report_perth_smoke ∈ c).
Proof.
  assert (E : create [report_lima; report_perth_hail; report_perth_smoke]
              = [[report_lima; report_perth_smoke]; [report_perth_hail]])
    by (vm_compute; reflexivity).
  split_and!; [vm_compute; reflexivity..|exact E|].
  rewrite E. intros (c & Hc & Ha & Hb).
  apply elem_of_cons in Hc as [->|Hc].
  - apply elem_of_cons in Ha as [Ha|Ha]; [discriminate Ha|].
    apply elem_of_cons in Ha as [Ha|Ha]; [discriminate Ha|].
    by apply elem_of_nil in Ha.
  - apply elem_of_cons in Hc as [->|Hc]; [|by apply elem_of_nil in Hc].
    apply elem_of_cons in Hb as [Hb|Hb]; [discriminate Hb|].
    by apply elem_of_nil in Hb.
Qed.

Lemma matching_pair_joins_anchor_witness :
  exists c1 c2,
    create ([report_lima] ++ report_perth_hail :: [] ++ report_perth_plain :: [])
      !! length (create [report_lima])
    = Some (report_perth_hail :: c1 ++ report_perth_plain :: c2).
Proof.
  apply (matching_pair_joins_anchor ratio_equal_or_disjoint iso_seconds
           default_config [report_lima] [] [] report_perth_hail
           report_perth_plain); vm_compute; reflexivity.
Defined.

Lemma process_clusters_gate_witness :
  exists i best,
    [report_perth_hail; report_perth_smoke] !! i = Some best
    /\ process_clusters default_config [[report_perth_hail; report_perth_smoke]]
       = Ok [mark_verified best].
Proof.
  destruct (proj2 (process_clusters_gate default_config
                     [report_perth_hail; report_perth_smoke]))
    as (i & best & Hi & _ & _ & Hp & _).
  - intros [_ H]. simpl in H. lia.
  - by exists i, best.
Defined.

End CheckerExamples.

(** ** The detecter *)

Module DetecterSpec.
Import Detecter.

Lemma bind_Ok {A B} (m : result A) (k : A -> result B) b :
  bind m k = Ok b -> exists a, m = Ok a /\ k a = Ok b.
Proof. destruct m as [a|e]; simpl; [|done]. intros H. by exists a. Qed.

Ltac bind_inv H :=
  let x := fresh "x" in
  let Hx := fresh "Hx" in
  apply bind_Ok in H as (x & Hx & H).

Section Aggregator.
Variable radians : Q -> Q.
Variable central_angle : Q * Q -> Q * Q -> Q.

Abbreviation find_existing := (Detecter.find_existing radians central_angle).
Abbreviation update_or_create :=
  (Detecter.update_or_create_composite_hotspot radians central_angle).

Lemma find_existing_elem db avg existing :
  find_existing db avg = Some existing -> existing ∈ db.
Proof.
  unfold Detecter.find_existing. intros [H _]%find_some.
  apply list_elem_of_In in H. unfold candidates in H.
  by apply list_elem_of_filter in H as [_ H].
Qed.

Lemma db_get_update db row :
  (exists ch, ch ∈ db /\ ch_id ch = ch_id row) ->
  db_get (db_update db row) (ch_id row) = Some row.
Proof.
  intros (ch & Hin & Hid). unfold db_get, db_update.
  induction db as [|h db IH]; [by apply elem_of_nil in Hin|].
  rewrite fmap_cons. simpl.
  destruct (ch_id h =? ch_id row)%Z eqn:E.
  - by rewrite Z.eqb_refl.
  - rewrite E. apply IH. apply elem_of_cons in Hin as [->|Hin]; [|done].
    apply Z.eqb_neq in E. done.
Qed.

(** What the merge branch writes, field by field. *)
Lemma merged_values_fields existing a avg row :
  merged_values existing a avg = Ok row ->
  ch_id row = ch_id existing
  /\ ch_contributing_reports_count row
     = (ch_contributing_reports_count existing + Z.of_nat (size (report_ids a)))%Z
  /\ ch_severity_level row
     = rev_severity (maxQ (severity_value (Some (ch_severity_level existing)))
                          (severity_vals a))
  /\ (risk_counts a = [] -> ch_risk_level row = ch_risk_level existing)
  /\ (risk_counts a <> [] -> most_common_key (risk_counts a) = Ok (ch_risk_level row))
  /\ (ch_contributing_reports_count existing
      + Z.of_nat (size (report_ids a)))%Z <> 0%Z.
Proof.
  unfold merged_values. intros H.
  bind_inv H. bind_inv H. bind_inv H. bind_inv H. bind_inv H.
  injection H as <-. simpl. split_and!; try done.
  - intros E. rewrite E in Hx1. by injection Hx1 as <-.
  - intros E. by destruct (risk_counts a).
  - intros E. unfold py_div in Hx0. rewrite E in Hx0.
    by destruct (Qeqb (inject_Z 0) 0) eqn:E0.
Qed.

Lemma update_merge_inv db cluster_points existing db' out :
  find_existing db (centroid cluster_points) = Some existing ->
  update_or_create db cluster_points = Ok (db', out) ->
  exists row,
    merged_values existing (aggregate cluster_points) (centroid cluster_points)
    = Ok row
    /\ db' = db_update db row
    /\ db_get db' (ch_id existing) = Some row
    /\ out = to_hotspot_data row.
Proof.
  intros Hf. unfold Detecter.update_or_create_composite_hotspot.
  rewrite Hf. intros H. bind_inv H. exists x.
  pose proof (merged_values_fields _ _ _ _ Hx) as (Hid & _).
  rewrite <- Hid in H. rewrite db_get_update in H.
  - injection H as <- <-. split_and!; try done.
    rewrite <- Hid. apply db_get_update. exists existing. split; [|done].
    by eapply find_existing_elem.
  - exists existing. split; [|done]. by eapply find_existing_elem.
Qed.

(** C4. When [update_or_create_composite_hotspot] merges a group into an
    existing hotspot, the count stored afterwards for that hotspot (and
    returned) is the count before plus the number of distinct report ids of
    the group, hence at least the count before. *)
Theorem merge_count_monotone db cluster_points existing db' out :
  find_existing db (centroid cluster_points) = Some existing ->
  update_or_create db cluster_points = Ok (db', out) ->
  exists stored,
    db_get db' (ch_id existing) = Some stored
    /\ ch_contributing_reports_count stored
       = (ch_contributing_reports_count existing
          + Z.of_nat (size (report_ids (aggregate cluster_points))))%Z
    /\ (ch_contributing_reports_count existing
        <= ch_contributing_reports_count stored)%Z
    /\ out_contributing_reports out = ch_contributing_reports_count stored.
Proof.
  intros Hf Hu.
  destruct (update_merge_inv _ _ _ _ _ Hf Hu) as (row & Hm & -> & Hg & ->).
  apply merged_values_fields in Hm as (_ & Hc & _).
  exists row. split_and!; try done. lia.
Qed.

(** The report identifiers of a group: the [report_id] of every point's
    payload that has one, [None] and [0] set aside as Python's [if] does. *)
Definition point_report_id (p : GeoPoint) : option Z :=
  match getattr (hs_report_id (p_payload p)) None with
  | Some z => if (z =? 0)%Z then None else Some z
  | None => None
  end.

Definition batch_report_ids (cluster_points : list GeoPoint) : gset Z :=
  list_to_set (omap point_report_id cluster_points).

Lemma aggregate_point_report_ids a p :
  report_ids (aggregate_point a p)
  = report_ids a ∪ from_option singleton ∅ (point_report_id p).
Proof.
  unfold aggregate_point, point_report_id, add_report_id.
  assert (E : (match getattr (hs_report_id (p_payload p)) None with
               | Some z => if (z =? 0)%Z then report_ids a
                           else report_ids a ∪ {[ z ]}
               | None => report_ids a
               end)
              = report_ids a ∪ from_option singleton ∅
                  (match getattr (hs_report_id (p_payload p)) None with
                   | Some z => if (z =? 0)%Z then None else Some z
                   | None => None
                   end)).
  { destruct (getattr (hs_report_id (p_payload p)) None) as [z|]; simpl.
    - destruct (z =? 0)%Z; simpl; [by rewrite (right_id_L ∅ (∪))|done].
    - by rewrite (right_id_L ∅ (∪)). }
  destruct (String.eqb (p_type p) "human"); [exact E|].
  destruct (String.eqb (p_type p) "disaster"); exact E.
Qed.

Lemma foldl_aggregate_report_ids a ps :
  report_ids (foldl aggregate_point a ps)
  = report_ids a ∪ list_to_set (omap point_report_id ps).
Proof.
  revert a. induction ps as [|p ps IH]; intros a; simpl.
  - by rewrite (right_id_L ∅ (∪)).
  - rewrite IH, aggregate_point_report_ids.
    destruct (point_report_id p) as [z|]; simpl.
    + by rewrite (assoc_L (∪)).
    + by rewrite (right_id_L ∅ (∪)).
Qed.

Lemma aggregate_report_ids cluster_points :
  report_ids (aggregate cluster_points) = batch_report_ids cluster_points.
Proof.
  unfold aggregate, batch_report_ids. rewrite foldl_aggregate_report_ids.
  simpl. by rewrite (left_id_L ∅ (∪)).
Qed.

Lemma elem_of_batch_report_ids cluster_points z :
  z ∈ batch_report_ids cluster_points
  <-> z <> 0%Z
      /\ exists p, p ∈ cluster_points
                  /\ getattr (hs_report_id (p_payload p)) None = Some z.
Proof.
  unfold batch_report_ids. rewrite elem_of_list_to_set, list_elem_of_omap.
  unfold point_report_id. split.
  - intros (p & Hp & H).
    destruct (getattr (hs_report_id (p_payload p)) None) as [z'|] eqn:E; [|done].
    destruct (z' =? 0)%Z eqn:E0; [done|]. injection H as ->.
    apply Z.eqb_neq in E0. split; [done|]. by exists p.
  - intros (Hz & p & Hp & H). exists p. split; [done|]. rewrite H.
    apply Z.eqb_neq in Hz. by rewrite Hz.
Qed.

Lemma inject_Z_nonzero z : z <> 0%Z -> Qeqb (inject_Z z) 0 = false.
Proof.
  intros Hz. destruct (Qeqb (inject_Z z) 0) eqn:E; [|done].
  apply Qeqb_eq in E. unfold Qeq in E. simpl in E. lia.
Qed.

Lemma aggregate_nil : aggregate [] = empty_agg.
Proof. done. Qed.

(** The create branch never raises. *)
Lemma created_values_ok id cluster_points avg :
  exists row,
    created_values id cluster_points (aggregate cluster_points) avg = Ok row
    /\ ch_id row = id
    /\ ch_contributing_reports_count row
       = Z.of_nat (size (report_ids (aggregate cluster_points))).
Proof.
  unfold created_values.
  set (n := inject_Z (Z.of_nat (length cluster_points))).
  set (a := aggregate cluster_points).
  assert (Hemo : exists m,
    map_fold (fun k v (acc : result (gmap string Q)) =>
                m <-- acc ;; q <-- py_div v n ;; Ok (<[ k := q ]> m))
             (Ok ∅) (emotion_agg a) = Ok m).
  { destruct cluster_points as [|p ps].
    - exists ∅. subst a. rewrite aggregate_nil. simpl. apply map_fold_empty.
    - assert (Hn : Qeqb n 0 = false).
      { apply inject_Z_nonzero. simpl. lia. }
      generalize (emotion_agg a). intros m.
      apply (map_fold_weak_ind (fun r _ => exists m', r = Ok m')); [by exists ∅|].
      intros k v m0 r _ [m' ->]. cbn [bind]. unfold py_div. rewrite Hn.
      cbn [bind]. by eexists. }
  destruct Hemo as [m ->]. simpl.
  assert (Hpanic : exists q,
    match panic_scores a with
    | [] => Ok 0%Q
    | _ => py_div (sumQ (panic_scores a)) n
    end = Ok q).
  { destruct (panic_scores a) as [|s0 ss] eqn:Ep; [by eexists|].
    destruct cluster_points as [|p ps].
    - subst a. by rewrite aggregate_nil in Ep.
    - unfold py_div. subst n.
      rewrite inject_Z_nonzero by (simpl length; lia). by eexists. }
  destruct Hpanic as [q ->]. simpl.
  assert (Hrisk : exists r,
    match risk_counts a with
    | [] => Ok "unknown"
    | _ => most_common_key (risk_counts a)
    end = Ok r).
  { destruct (risk_counts a) as [|e es]; by eexists. }
  destruct Hrisk as [r ->]. simpl. by eexists.
Qed.

(** C6. When no persisted hotspot lies within 5 km of the group's
    centroid, [update_or_create_composite_hotspot] succeeds, appends one
    row and returns its values; the row's [contributing_reports_count] is the
    number of distinct report identifiers of the group's points: an
    identifier is counted once however many points carry it, and a point
    whose payload has no [report_id] (or a falsy one) adds none. *)
Theorem created_count_distinct_ids db cluster_points :
  find_existing db (centroid cluster_points) = None ->
  exists created,
    update_or_create db cluster_points
    = Ok (db ++ [created], to_hotspot_data created)
    /\ ch_contributing_reports_count created
       = Z.of_nat (size (batch_report_ids cluster_points))
    /\ size (batch_report_ids cluster_points)
       = length (remove_dups (omap point_report_id cluster_points))
    /\ (forall z, z ∈ batch_report_ids cluster_points
         <-> z <> 0%Z
             /\ exists p, p ∈ cluster_points
                  /\ getattr (hs_report_id (p_payload p)) None = Some z).
Proof.
  intros Hf. unfold Detecter.update_or_create_composite_hotspot. rewrite Hf.
  destruct (created_values_ok (next_id db) cluster_points
              (centroid cluster_points)) as (row & -> & _ & Hc).
  exists row. simpl. split_and!; [done| | |].
  - by rewrite Hc, aggregate_report_ids.
  - unfold batch_report_ids.
    rewrite <- (size_list_to_set (C:=gset Z)) by apply NoDup_remove_dups.
    f_equal. apply set_eq. intros z.
    by rewrite !elem_of_list_to_set, elem_of_remove_dups.
  - apply elem_of_batch_report_ids.
Qed.

(** The confidence-weighted severity value a point adds to
    [severity_vals]: disaster points only. *)
Definition point_severity_val (p : GeoPoint) : option Q :=
  if String.eqb (p_type p) "human" then None
  else if String.eqb (p_type p) "disaster"
       then Some (severity_value (getattr (hs_severity (p_payload p)) (Some "low"))
                  * p_confidence p)%Q
       else None.

(** The risk level a point adds to the tally: disaster points with a
    non-empty [risk_level]. *)
Definition point_risk_level (p : GeoPoint) : option string :=
  if String.eqb (p_type p) "human" then None
  else if String.eqb (p_type p) "disaster"
       then match getattr (hs_risk_level (p_payload p)) None with
            | Some r => if PyStr.truthy (Some r) then Some r else None
            | None => None
            end
       else None.

Lemma foldl_aggregate_severity_vals a ps :
  severity_vals (foldl aggregate_point a ps)
  = severity_vals a ++ omap point_severity_val ps.
Proof.
  revert a. induction ps as [|p ps IH]; intros a; simpl.
  - by rewrite app_nil_r.
  - rewrite IH. unfold aggregate_point, point_severity_val.
    destruct (String.eqb (p_type p) "human"); simpl; [done|].
    destruct (String.eqb (p_type p) "disaster"); simpl; [|done].
    by rewrite <- (assoc_L (++)).
Qed.

Lemma aggregate_severity_vals cluster_points :
  severity_vals (aggregate cluster_points) = omap point_severity_val cluster_points.
Proof. unfold aggregate. by rewrite foldl_aggregate_severity_vals. Qed.

Lemma foldl_aggregate_risk_counts a ps :
  risk_counts (foldl aggregate_point a ps)
  = foldl (fun c r => counter_incr r c) (risk_counts a) (omap point_risk_level ps).
Proof.
  revert a. induction ps as [|p ps IH]; intros a; simpl; [done|].
  rewrite IH. unfold aggregate_point, point_risk_level, count_risk.
  destruct (String.eqb (p_type p) "human"); simpl; [done|].
  destruct (String.eqb (p_type p) "disaster"); simpl; [|done].
  destruct (getattr (hs_risk_level (p_payload p)) None) as [r|]; [|done].
  by destruct r.
Qed.

Lemma counter_get_incr k k' c :
  counter_get k (counter_incr k' c)
  = counter_get k c + (if String.eqb k k' then 1 else 0).
Proof.
  induction c as [|[k0 n] c IH]; simpl.
  - destruct (String.eqb k k'); lia.
  - destruct (String.eqb k' k0) eqn:E; simpl.
    + apply String.eqb_eq in E as ->.
      destruct (String.eqb k k0); lia.
    + destruct (String.eqb k k0) eqn:E0; [|done].
      apply String.eqb_eq in E0 as ->.
      rewrite String.eqb_sym, E. lia.
Qed.

(** The tally of a level is the number of disaster points that carry it. *)
Lemma aggregate_risk_counts cluster_points k :
  counter_get k (risk_counts (aggregate cluster_points))
  = length (filter (fun p => point_risk_level p = Some k) cluster_points).
Proof.
  unfold aggregate. rewrite foldl_aggregate_risk_counts.
  change (risk_counts empty_agg) with (@nil (string * nat)).
  assert (G : forall c,
    counter_get k (foldl (fun c r => counter_incr r c) c
                         (omap point_risk_level cluster_points))
    = counter_get k c
      + length (filter (fun p => point_risk_level p = Some k) cluster_points)).
  { induction cluster_points as [|p ps IH]; intros c; simpl; [lia|].
    rewrite filter_cons.
    destruct (point_risk_level p) as [r|] eqn:E; simpl.
    - rewrite IH, counter_get_incr.
      destruct (decide (Some r = Some k)) as [[= ->]|Hne].
      + rewrite String.eqb_refl. simpl. lia.
      + destruct (String.eqb k r) eqn:Ek; [|lia].
        apply String.eqb_eq in Ek as ->. done.
    - rewrite IH. by destruct (decide (None = Some k)). }
  rewrite G. simpl. lia.
Qed.

Lemma Nat_ltb_asym a b : (a <? b) = true -> (b <? a) = false.
Proof. rewrite Nat.ltb_lt, Nat.ltb_ge. lia. Qed.

Lemma Nat_leb_ltb_trans a b c :
  (b <? a) = false -> (b <? c) = true -> (a <? c) = true.
Proof. rewrite Nat.ltb_ge, !Nat.ltb_lt. lia. Qed.

(** [most_common(1)]: the first key with the greatest count. *)
Lemma most_common_key_first_max tally r :
  most_common_key tally = Ok r ->
  exists i n,
    tally !! i = Some (r, n)
    /\ (forall k m, (k, m) ∈ tally -> m <= n)
    /\ (forall j k m, j < i -> tally !! j = Some (k, m) -> m < n).
Proof.
  unfold most_common_key. destruct tally as [|e rest]; [done|].
  intros [= <-].
  destruct (max_from_first_max snd Nat.ltb Nat_ltb_asym Nat_leb_ltb_trans e rest)
    as (i & Hi & Hle & Hlt).
  exists i, (max_from snd Nat.ltb e rest).2. split_and!.
  - rewrite Hi. by destruct (max_from snd Nat.ltb e rest).
  - intros k m Hkm. specialize (Hle _ Hkm). simpl in Hle.
    apply Nat.ltb_ge in Hle. done.
  - intros j k m Hj Hjk. specialize (Hlt _ _ Hj Hjk). simpl in Hlt.
    by apply Nat.ltb_lt in Hlt.
Qed.

(** The rank of a severity level: [severity_scale.get(level, 1)]. *)
Definition severity_rank (level : string) : Q := severity_value (Some level).

Lemma Qeqb_congr x y z : (x == y)%Q -> Qeqb x z = Qeqb y z.
Proof.
  intros H. destruct (Qeqb y z) eqn:E.
  - apply Qeqb_eq. apply Qeqb_eq in E. by rewrite H.
  - destruct (Qeqb x z) eqn:E'; [|done].
    apply Qeqb_eq in E'. rewrite H in E'. apply Qeqb_eq in E'. congruence.
Qed.

Lemma rev_severity_rank v :
  (v == 4 \/ v == 3 \/ v == 2 \/ v == 1)%Q ->
  (severity_rank (rev_severity v) == v)%Q.
Proof.
  unfold rev_severity.
  intros [H|[H|[H|H]]];
    rewrite (Qeqb_congr _ _ 4%Q H), (Qeqb_congr _ _ 3%Q H),
      (Qeqb_congr _ _ 2%Q H), (Qeqb_congr _ _ 1%Q H);
    vm_compute (Qeqb _ _); cbv iota; rewrite H; reflexivity.
Qed.

Lemma maxQ_bounds x xs :
  (x <= maxQ x xs)%Q
  /\ (forall v, v ∈ xs -> (v <= maxQ x xs)%Q)
  /\ maxQ x xs ∈ x :: xs.
Proof.
  unfold maxQ.
  destruct (max_from_first_max id Qltb Qltb_asym Qleb_ltb_trans x xs)
    as (i & Hi & Hle & _).
  split_and!.
  - apply Qltb_ge. apply (Hle x). by left.
  - intros v Hv. apply Qltb_ge. apply (Hle v). by right.
  - by eapply list_elem_of_lookup_2.
Qed.

(** What lines 248-249 compute. After a merge the stored and returned
    [severity_level] is [rev_severity] (4 critical, 3 high, 2 medium, 1 low,
    anything else low) of the greatest of the existing level's rank and the
    confidence-weighted severity values of the group's disaster points.
    The merged level ranks at least as high as the existing one only when
    that greatest value happens to be one of 4, 3, 2, 1. *)
Theorem merge_severity_level db cluster_points existing db' out :
  find_existing db (centroid cluster_points) = Some existing ->
  update_or_create db cluster_points = Ok (db', out) ->
  let top := maxQ (severity_rank (ch_severity_level existing))
                  (omap point_severity_val cluster_points) in
  out_severity_level out = rev_severity top
  /\ (exists stored, db_get db' (ch_id existing) = Some stored
                     /\ ch_severity_level stored = rev_severity top)
  /\ (severity_rank (ch_severity_level existing) <= top)%Q
  /\ (forall v, v ∈ omap point_severity_val cluster_points -> (v <= top)%Q)
  /\ top ∈ severity_rank (ch_severity_level existing)
            :: omap point_severity_val cluster_points
  /\ ((top == 4 \/ top == 3 \/ top == 2 \/ top == 1)%Q ->
      (severity_rank (ch_severity_level existing)
       <= severity_rank (out_severity_level out))%Q).
Proof.
  intros Hf Hu top.
  destruct (update_merge_inv _ _ _ _ _ Hf Hu) as (row & Hm & -> & Hg & ->).
  apply merged_values_fields in Hm as (_ & _ & Hs & _).
  rewrite aggregate_severity_vals in Hs. fold (severity_rank (ch_severity_level existing)) in Hs.
  fold top in Hs.
  destruct (maxQ_bounds (severity_rank (ch_severity_level existing))
              (omap point_severity_val cluster_points)) as (H1 & H2 & H3).
  split_and!; try done.
  - by exists row.
  - intros Htop. simpl. rewrite Hs. rewrite (rev_severity_rank top Htop). done.
Qed.

(** C8, as the code has it. After a merge the [risk_level] is the
    existing one when no disaster point of the group carries a risk level;
    otherwise it is the level most frequent among the group's disaster
    points, the first one tallied when several are equally frequent. The
    existing level and the hotspot's count play no part in that choice. *)
Theorem merge_risk_level db cluster_points existing db' out :
  find_existing db (centroid cluster_points) = Some existing ->
  update_or_create db cluster_points = Ok (db', out) ->
  let tally := risk_counts (aggregate cluster_points) in
  (exists stored, db_get db' (ch_id existing) = Some stored
                  /\ ch_risk_level stored = out_risk_level out)
  /\ (tally = [] -> out_risk_level out = ch_risk_level existing)
  /\ (tally <> [] ->
      exists i n,
        tally !! i = Some (out_risk_level out, n)
        /\ (forall k m, (k, m) ∈ tally -> m <= n)
        /\ (forall j k m, j < i -> tally !! j = Some (k, m) -> m < n))
  /\ (forall k, counter_get k tally
                = length (filter (fun p => point_risk_level p = Some k)
                                 cluster_points)).
Proof.
  intros Hf Hu tally.
  destruct (update_merge_inv _ _ _ _ _ Hf Hu) as (row & Hm & -> & Hg & ->).
  apply merged_values_fields in Hm as (_ & _ & _ & Hr0 & Hr1 & _).
  split_and!.
  - by exists row.
  - done.
  - intros Hne. apply most_common_key_first_max. by apply Hr1.
  - intros k. apply aggregate_risk_counts.
Qed.

End Aggregator.

(** *** The label search on a symmetric neighbourhood graph *)

Section LabelSearch.
Variable n : nat.
Variable nbs : list (list nat).
Variable is_core : list bool.

(** [v] is in the neighbourhood of [u]. *)
Definition nbr (u v : nat) : Prop := exists l, nbs !! u = Some l /\ v ∈ l.

Hypothesis nbs_length : length nbs = n.
Hypothesis all_core : forall u, u < n -> is_core !! u = Some true.
Hypothesis nbr_bound : forall u v, nbr u v -> v < n.
Hypothesis nbs_size : forall u l, nbs !! u = Some l -> length l <= n.
Hypothesis nbr_sym : forall u v, nbr u v -> nbr v u.

Lemma nbr_bound_l u v : nbr u v -> u < n.
Proof. intros H%nbr_sym. by eapply nbr_bound. Qed.

Lemma chain_sym u v : rtc nbr u v -> rtc nbr v u.
Proof.
  induction 1 as [|x y z Hxy _ IH]; [done|].
  eapply rtc_r; [exact IH|]. by apply nbr_sym.
Qed.

(** Number of samples without a label. *)
Definition unl (labels : list Z) : nat :=
  length (filter (fun z => z = (-1)%Z) labels).

Lemma unl_le labels : unl labels <= length labels.
Proof. apply length_filter. Qed.

Lemma unl_insert labels i L :
  labels !! i = Some (-1)%Z -> L <> (-1)%Z ->
  unl (<[ i := L ]> labels) + 1 = unl labels.
Proof.
  unfold unl. revert i. induction labels as [|z labels IH]; intros i Hi HL; [done|].
  destruct i as [|i]; simpl in *.
  - injection Hi as ->. rewrite !filter_cons.
    destruct (decide (L = (-1)%Z)); [done|].
    destruct (decide ((-1)%Z = (-1)%Z)); [|done]. simpl. lia.
  - rewrite !filter_cons. specialize (IH i Hi HL).
    destruct (decide (z = (-1)%Z)); simpl; lia.
Qed.

Lemma unlabelled_true labels v :
  unlabelled labels v = true <-> labels !! v = Some (-1)%Z.
Proof. unfold unlabelled. by rewrite bool_decide_eq_true. Qed.

Lemma elem_of_push_unlabelled labels stack nb w :
  w ∈ push_unlabelled labels stack nb
  <-> w ∈ stack \/ (w ∈ nb /\ labels !! w = Some (-1)%Z).
Proof.
  unfold push_unlabelled. revert stack.
  induction nb as [|v nb IH]; intros stack; simpl.
  - split; [by left|]. intros [H|[H _]]; [done|by apply elem_of_nil in H].
  - rewrite IH. destruct (unlabelled labels v) eqn:E.
    + apply unlabelled_true in E. rewrite !elem_of_cons. split.
      * intros [[->|H]|[H Hw]]; [right; split; [by left|done]|by left|].
        right. split; [by right|done].
      * intros [H|[[->|H] Hw]]; [left; by right|left; by left|].
        right. by split.
    + rewrite elem_of_cons. split.
      * intros [H|[H Hw]]; [by left|]. right. split; [by right|done].
      * intros [H|[[->|H] Hw]]; [by left| |by right].
        apply unlabelled_true in Hw. congruence.
Qed.

Lemma length_push_unlabelled labels stack nb :
  length (push_unlabelled labels stack nb) <= length stack + length nb.
Proof.
  unfold push_unlabelled. revert stack.
  induction nb as [|v nb IH]; intros stack; simpl; [lia|].
  etrans; [apply IH|]. destruct (unlabelled labels v); simpl; lia.
Qed.

(** Between two searches: labels are below [L], a labelled sample shares
    its label with its whole neighbourhood, and two samples with the same
    label are linked by a chain of neighbours. *)
Definition settled (labels : list Z) (L : Z) : Prop :=
  length labels = n /\ (0 <= L)%Z
  /\ (forall u z, labels !! u = Some z -> z = (-1)%Z \/ (0 <= z < L)%Z)
  /\ (forall u v z, labels !! u = Some z -> z <> (-1)%Z -> nbr u v ->
                    labels !! v = Some z)
  /\ (forall u v z, labels !! u = Some z -> labels !! v = Some z ->
                    z <> (-1)%Z -> rtc nbr u v).

(** During the search from root [r] with label [L], about to treat [i]
    with [stack] pending. *)
Definition searching (labels : list Z) (L : Z) (r i : nat) (stack : list nat)
  : Prop :=
  length labels = n /\ (0 <= L)%Z /\ i < n /\ Forall (fun v => v < n) stack
  /\ (forall u z, labels !! u = Some z -> z = (-1)%Z \/ (0 <= z <= L)%Z)
  /\ (forall u v z, labels !! u = Some z -> z <> (-1)%Z -> nbr u v ->
         labels !! v = Some z
         \/ (z = L /\ labels !! v = Some (-1)%Z /\ v ∈ i :: stack))
  /\ (forall u v z, labels !! u = Some z -> labels !! v = Some z ->
         z <> (-1)%Z -> z <> L -> rtc nbr u v)
  /\ (forall u, labels !! u = Some L -> rtc nbr r u)
  /\ (forall w, w ∈ i :: stack -> rtc nbr r w).

Definition keeps (labels labels' : list Z) : Prop :=
  forall u z, labels !! u = Some z -> z <> (-1)%Z -> labels' !! u = Some z.

Definition labelled (labels : list Z) (i : nat) : Prop :=
  exists z, labels !! i = Some z /\ z <> (-1)%Z.

Lemma searching_step_label labels L r i stack :
  searching labels L r i stack ->
  labels !! i = Some (-1)%Z ->
  let labels' := <[ i := L ]> labels in
  let stack' := push_unlabelled labels' stack (default [] (nbs !! i)) in
  length labels' = n
  /\ Forall (fun v => v < n) stack'
  /\ (forall u z, labels' !! u = Some z -> z = (-1)%Z \/ (0 <= z <= L)%Z)
  /\ (forall u v z, labels' !! u = Some z -> z <> (-1)%Z -> nbr u v ->
         labels' !! v = Some z
         \/ (z = L /\ labels' !! v = Some (-1)%Z /\ v ∈ stack'))
  /\ (forall u v z, labels' !! u = Some z -> labels' !! v = Some z ->
         z <> (-1)%Z -> z <> L -> rtc nbr u v)
  /\ (forall u, labels' !! u = Some L -> rtc nbr r u)
  /\ (forall w, w ∈ stack' -> rtc nbr r w).
Proof.
  intros (Hlen & HL & Hi & Hst & Hrange & Hnb & Hconn & Hroot & Hpend) Hunl
    labels' stack'.
  assert (Hii : labels' !! i = Some L).
  { unfold labels'. apply list_lookup_insert_eq. lia. }
  assert (Hne : forall u, u <> i -> labels' !! u = labels !! u).
  { intros u Hu. unfold labels'. by rewrite list_lookup_insert_ne. }
  assert (Hri : rtc nbr r i) by (apply Hpend; by left).
  assert (Hstack' : forall w, w ∈ stack' <->
            w ∈ stack \/ (nbr i w /\ labels' !! w = Some (-1)%Z)).
  { intros w. unfold stack'. rewrite elem_of_push_unlabelled.
    unfold nbr. destruct (nbs !! i) as [l|] eqn:E; simpl.
    - split; (intros [H|[H1 H2]]; [by left|right]).
      + split; [by exists l|done].
      + destruct H1 as (l' & [= <-] & H1). done.
    - split; (intros [H|[H1 H2]]; [by left|]).
      + by apply elem_of_nil in H1.
      + by destruct H1 as (l' & [=] & _). }
  split_and!.
  - unfold labels'. by rewrite length_insert.
  - apply Forall_forall. intros w [Hw|[Hw _]]%Hstack'.
    + rewrite Forall_forall in Hst. by apply Hst.
    + by eapply nbr_bound.
  - intros u z Hu. destruct (decide (u = i)) as [->|Hui].
    + rewrite Hii in Hu. injection Hu as <-. right. lia.
    + rewrite Hne in Hu by done. by eapply Hrange.
  - intros u v z Hu Hz Huv.
    assert (Hv : v < n) by (by eapply nbr_bound).
    destruct (decide (u = i)) as [->|Hui].
    + rewrite Hii in Hu. injection Hu as <-.
      destruct (decide (v = i)) as [->|Hvi]; [by left|].
      destruct (labels !! v) as [zv|] eqn:Ev.
      2:{ apply lookup_ge_None in Ev. lia. }
      destruct (decide (zv = (-1)%Z)) as [->|Hzv].
      * right. split; [done|]. rewrite Hne by done. split; [done|].
        apply Hstack'. right. split; [done|]. by rewrite Hne.
      * left. rewrite Hne by done.
        destruct (Hnb v i zv Ev Hzv (nbr_sym _ _ Huv)) as [H|(-> & _)];
          [congruence|done].
    + rewrite Hne in Hu by done.
      destruct (Hnb u v z Hu Hz Huv) as [H|(-> & Hv1 & Hv2)].
      * left. destruct (decide (v = i)) as [->|Hvi]; [congruence|].
        by rewrite Hne.
      * destruct (decide (v = i)) as [->|Hvi]; [by left|].
        right. rewrite Hne by done. split_and!; try done.
        apply Hstack'. left. by apply elem_of_cons in Hv2 as [->|Hv2].
  - intros u v z Hu Hv Hz HzL.
    destruct (decide (u = i)) as [->|Hui]; [congruence|].
    destruct (decide (v = i)) as [->|Hvi]; [congruence|].
    rewrite Hne in Hu, Hv by done. by eapply Hconn.
  - intros u Hu. destruct (decide (u = i)) as [->|Hui]; [done|].
    rewrite Hne in Hu by done. by apply Hroot.
  - intros w [Hw|[Hw _]]%Hstack'.
    + apply Hpend. by right.
    + eapply rtc_r; [exact Hri|done].
Qed.

Lemma searching_done labels L r i :
  searching labels L r i [] -> labelled labels i -> settled labels (L + 1).
Proof.
  intros (Hlen & HL & Hi & Hst & Hrange & Hnb & Hconn & Hroot & Hpend)
    (zi & Hzi & Hzi').
  split_and!; [done|lia| | |].
  - intros u z Hu. destruct (Hrange u z Hu); [by left|right; lia].
  - intros u v z Hu Hz Huv.
    destruct (Hnb u v z Hu Hz Huv) as [H|(_ & Hv & Hin)]; [done|].
    apply list_elem_of_singleton in Hin as ->. congruence.
  - intros u v z Hu Hv Hz. destruct (decide (z = L)) as [->|HzL].
    + etrans; [apply chain_sym; by apply Hroot|by apply Hroot].
    + by eapply Hconn.
Qed.

Lemma expand_spec fuel L r :
  forall labels i stack,
    searching labels L r i stack ->
    unl labels * (n + 1) + length stack < fuel ->
    exists labels',
      expand fuel is_core nbs L i stack labels = Some labels'
      /\ settled labels' (L + 1) /\ keeps labels labels' /\ labelled labels' i.
Proof.
  induction fuel as [|fuel IH]; intros labels i stack Hs Hfuel; [lia|].
  pose proof Hs as (Hlen & HL & Hi & Hst & Hrange & Hnb & Hconn & Hroot & Hpend).
  simpl. destruct (unlabelled labels i) eqn:Eu.
  - apply unlabelled_true in Eu. rewrite (all_core i Hi). simpl.
    destruct (searching_step_label labels L r i stack Hs Eu)
      as (Hlen' & Hst' & Hrange' & Hnb' & Hconn' & Hroot' & Hpend').
    set (labels' := <[ i := L ]> labels) in *.
    set (stack' := push_unlabelled labels' stack (default [] (nbs !! i))) in *.
    assert (Hii : labels' !! i = Some L).
    { unfold labels'. apply list_lookup_insert_eq. lia. }
    assert (Hkeep : keeps labels labels').
    { intros u z Hu Hz. unfold labels'.
      rewrite list_lookup_insert_ne; [done|]. congruence. }
    assert (Hsize : length stack' <= length stack + n).
    { unfold stack'. etrans; [apply length_push_unlabelled|].
      destruct (nbs !! i) as [l|] eqn:E; simpl; [|lia].
      pose proof (nbs_size i l E). lia. }
    pose proof (unl_insert labels i L Eu ltac:(lia)) as Hunl.
    fold labels' in Hunl.
    destruct stack' as [|v rest] eqn:Es.
    + exists labels'. split_and!; [done| |done|exists L; split; [done|lia]].
      apply (searching_done labels' L r i); [|exists L; split; [done|lia]].
      split_and!; try done.
      * intros u v z Hu Hz Huv. destruct (Hnb' u v z Hu Hz Huv) as [H|(_ & _ & H)];
          [by left|by apply elem_of_nil in H].
      * intros w Hw. apply list_elem_of_singleton in Hw as ->.
        apply Hpend. by left.
    + destruct (IH labels' v rest) as (labels'' & He & Hset & Hk & Hl).
      * inversion Hst' as [|? ? Hv Hrest]; subst.
        split_and!; try done.
      * simpl in Hsize. nia.
      * exists labels''. split_and!; [done|done| |].
        -- intros u z Hu Hz. apply Hk; [|done]. by apply Hkeep.
        -- exists L. split; [|lia]. apply Hk; [done|lia].
  - assert (Hlab : labelled labels i).
    { destruct (labels !! i) as [z|] eqn:E.
      - exists z. split; [done|]. intros ->.
        apply unlabelled_true in E. congruence.
      - apply lookup_ge_None in E. lia. }
    simpl. destruct stack as [|v rest].
    + exists labels. split_and!; [done| |by intros u z Hu _|done].
      by apply (searching_done labels L r i).
    + destruct (IH labels v rest) as (labels'' & He & Hset & Hk & Hl).
      * inversion Hst; subst. split_and!; try done.
        -- intros u w z Hu Hz Huw.
           destruct (Hnb u w z Hu Hz Huw) as [H|(-> & Hw & Hin)]; [by left|].
           right. split_and!; try done.
           apply elem_of_cons in Hin as [->|Hin]; [|done].
           destruct Hlab as (zi & Hzi & Hzi'). congruence.
        -- intros w Hw. apply Hpend. by right.
      * simpl in Hfuel. lia.
      * exists labels''. split_and!; try done.
        destruct Hlab as (zi & Hzi & Hzi'). exists zi. split; [|done].
        by apply Hk.
Qed.

Lemma dbscan_inner_spec fuel todo :
  n * (n + 1) < fuel ->
  Forall (fun i => i < n) todo ->
  forall L labels,
    settled labels L ->
    exists labels' L',
      dbscan_inner fuel is_core nbs todo L labels = Some labels'
      /\ settled labels' L' /\ keeps labels labels'
      /\ Forall (labelled labels') todo.
Proof.
  intros Hfuel. induction todo as [|i todo IH]; intros Htodo L labels Hs.
  - exists labels, L. simpl. split_and!; try done. by intros u z Hu _.
  - inversion Htodo as [|? ? Hi Htodo']; subst.
    pose proof Hs as (Hlen & HL & Hrange & Hnb & Hconn).
    simpl. rewrite (all_core i Hi). simpl. rewrite orb_false_r.
    destruct (unlabelled labels i) eqn:Eu; simpl.
    + destruct (expand_spec fuel L i labels i []) as (l1 & He & Hs1 & Hk1 & Hl1).
      * split_and!; try done.
        -- intros u z Hu. destruct (Hrange u z Hu); [by left|right; lia].
        -- intros u v z Hu Hz Huv. left. by eapply Hnb.
        -- intros u v z Hu Hv Hz _. by eapply Hconn.
        -- intros u Hu. destruct (Hrange u L Hu); lia.
        -- intros w Hw. by apply list_elem_of_singleton in Hw as ->.
      * pose proof (unl_le labels). simpl. nia.
      * rewrite He. simpl.
        destruct (IH Htodo' (L + 1)%Z l1 Hs1) as (l2 & L2 & Hd & Hs2 & Hk2 & Hl2).
        exists l2, L2. split_and!; try done.
        -- intros u z Hu Hz. apply Hk2; [|done]. by apply Hk1.
        -- constructor; [|done]. destruct Hl1 as (z & Hz & Hz').
           exists z. split; [|done]. by apply Hk2.
    + destruct (IH Htodo' L labels Hs) as (l2 & L2 & Hd & Hs2 & Hk2 & Hl2).
      exists l2, L2. split_and!; try done. constructor; [|done].
      destruct (labels !! i) as [z|] eqn:E.
      * exists z. split; [|intros ->; apply unlabelled_true in E; congruence].
        apply Hk2; [done|]. intros ->. apply unlabelled_true in E. congruence.
      * apply lookup_ge_None in E. lia.
Qed.

(** The search gives every sample a label, and two samples get the same
    label exactly when a chain of neighbours links them. *)
Lemma dbscan_inner_components :
  exists labels,
    dbscan_inner (enough_fuel n) is_core nbs (seq 0 n) 0 (replicate n (-1)%Z)
    = Some labels
    /\ length labels = n
    /\ (forall i, i < n -> exists z, labels !! i = Some z /\ (0 <= z)%Z)
    /\ (forall i j, i < n -> j < n ->
          (labels !! i = labels !! j <-> rtc nbr i j)).
Proof.
  destruct (dbscan_inner_spec (enough_fuel n) (seq 0 n)) with
    (L := 0%Z) (labels := replicate n (-1)%Z)
    as (labels & L' & Hd & (Hlen & HL & Hrange & Hnb & Hconn) & _ & Hall).
  - unfold enough_fuel. lia.
  - apply Forall_forall. intros i Hi%elem_of_seq. lia.
  - split_and!; [by rewrite length_replicate|done|..].
    + intros u z [-> _]%lookup_replicate. by left.
    + intros u v z [-> _]%lookup_replicate. done.
    + intros u v z [-> _]%lookup_replicate. done.
  - assert (Hlab : forall i, i < n -> exists z, labels !! i = Some z /\ (0 <= z)%Z).
    { intros i Hi. rewrite Forall_forall in Hall.
      destruct (Hall i) as (z & Hz & Hz'); [apply elem_of_seq; lia|].
      exists z. split; [done|]. destruct (Hrange i z Hz); lia. }
    exists labels. split_and!; try done.
    intros i j Hi Hj. destruct (Hlab i Hi) as (zi & Hzi & Hzi').
    split.
    + intros E. apply (Hconn i j zi); [done|congruence|lia].
    + intros Hc. rewrite Hzi. clear Hi.
      induction Hc as [x|x y w Hxy _ IH]; [done|].
      apply IH; [done|]. apply (Hnb x y zi); [done|lia|done].
Qed.

End LabelSearch.

(** *** Neighbourhoods of a reflexive, symmetric metric *)

Section Neighbourhoods.
Context {P : Type} (metric : P -> P -> Q) (eps : Q).
Hypothesis within_refl : forall x, Qleb (metric x x) eps = true.
Hypothesis within_sym :
  forall x y, Qleb (metric x y) eps = Qleb (metric y x) eps.
Variable X : list P.

(** Samples [i] and [j] are within [eps] of each other. *)
Definition close (i j : nat) : Prop :=
  exists x y, X !! i = Some x /\ X !! j = Some y
              /\ Qleb (metric x y) eps = true.

Lemma elem_of_neighbors_from j x (Y : list P) v :
  v ∈ neighbors_from metric eps j x Y
  <-> exists k y, v = j + k /\ Y !! k = Some y /\ Qleb (metric x y) eps = true.
Proof.
  revert j. induction Y as [|y0 Y IH]; intros j; simpl.
  - split; [by intros H%elem_of_nil|]. by intros (k & y & _ & H & _).
  - destruct (Qleb (metric x y0) eps) eqn:E.
    + rewrite elem_of_cons, IH. split.
      * intros [->|(k & y & -> & Hk & Hy)].
        -- exists 0, y0. split_and!; [lia|done|done].
        -- exists (S k), y. split_and!; [lia|done|done].
      * intros (k & y & -> & Hk & Hy). destruct k as [|k].
        -- left. lia.
        -- right. exists k, y. split_and!; [lia|done|done].
    + rewrite IH. split.
      * intros (k & y & -> & Hk & Hy). exists (S k), y.
        split_and!; [lia|done|done].
      * intros (k & y & -> & Hk & Hy). destruct k as [|k].
        -- simpl in Hk. injection Hk as <-. congruence.
        -- exists k, y. split_and!; [lia|done|done].
Qed.

Lemma length_neighbors_from j x (Y : list P) :
  length (neighbors_from metric eps j x Y) <= length Y.
Proof.
  revert j. induction Y as [|y0 Y IH]; intros j; simpl; [done|].
  destruct (Qleb (metric x y0) eps); simpl; specialize (IH (S j)); lia.
Qed.

Lemma nbr_neighborhoods i j :
  nbr (neighborhoods metric eps X) i j <-> close i j.
Proof.
  unfold nbr, close, neighborhoods. split.
  - intros (l & Hl & Hj). rewrite list_lookup_fmap in Hl.
    destruct (X !! i) as [x|] eqn:Ei; [|done]. simpl in Hl. injection Hl as <-.
    apply elem_of_neighbors_from in Hj as (k & y & -> & Hk & Hy).
    by exists x, y.
  - intros (x & y & Hi & Hj & Hxy). exists (neighbors_from metric eps 0 x X).
    split; [by rewrite list_lookup_fmap, Hi|].
    apply elem_of_neighbors_from. by exists j, y.
Qed.

Lemma close_sym i j : close i j -> close j i.
Proof.
  intros (x & y & Hi & Hj & Hxy). exists y, x. split_and!; try done.
  by rewrite within_sym.
Qed.

Lemma close_refl i : i < length X -> close i i.
Proof.
  intros Hi. destruct (lookup_lt_is_Some_2 X i Hi) as [x Hx].
  by exists x, x.
Qed.

Lemma core_samples_all i :
  i < length X -> core_samples metric eps 1 X !! i = Some true.
Proof.
  intros Hi. unfold core_samples, neighborhoods.
  rewrite !list_lookup_fmap.
  destruct (lookup_lt_is_Some_2 X i Hi) as [x Hx]. rewrite Hx. simpl.
  f_equal.
  assert (Hin : i ∈ neighbors_from metric eps 0 x X).
  { apply elem_of_neighbors_from. by exists i, x. }
  destruct (neighbors_from metric eps 0 x X); [by apply elem_of_nil in Hin|].
  done.
Qed.

(** [DBSCAN(eps, min_samples=1)] labels the connected components of the
    "within [eps]" graph: the search ends, every sample gets a label that is
    not -1, and two samples get the same label exactly when a chain of
    samples, each within [eps] of the next, links them. *)
Lemma dbscan_labels_components :
  exists labels,
    dbscan_labels metric eps 1 X = Some labels
    /\ length labels = length X
    /\ (forall i, i < length X -> exists z, labels !! i = Some z /\ (0 <= z)%Z)
    /\ (forall i j, i < length X -> j < length X ->
          (labels !! i = labels !! j <-> rtc close i j)).
Proof.
  destruct (dbscan_inner_components (length X) (neighborhoods metric eps X)
              (core_samples metric eps 1 X))
    as (labels & Hd & Hlen & Hlab & Hcomp).
  - unfold neighborhoods. by rewrite length_fmap.
  - apply core_samples_all.
  - intros u v (x & y & _ & Hv & _)%nbr_neighborhoods.
    by eapply lookup_lt_Some.
  - intros u l Hl. unfold neighborhoods in Hl. rewrite list_lookup_fmap in Hl.
    destruct (X !! u) as [x|]; [|done]. simpl in Hl. injection Hl as <-.
    apply length_neighbors_from.
  - intros u v Huv%nbr_neighborhoods. apply nbr_neighborhoods.
    by apply close_sym.
  - exists labels. split_and!; try done.
    intros i j Hi Hj. rewrite (Hcomp i j Hi Hj). split.
    + apply rtc_subrel. intros a b. apply nbr_neighborhoods.
    + apply rtc_subrel. intros a b. apply nbr_neighborhoods.
Qed.

End Neighbourhoods.

(** *** Grouping by label *)

(** The points carrying label [l], in arrival order. *)
Definition members (l : Z) (labelled : list (Z * GeoPoint)) : list GeoPoint :=
  (filter (fun lp => lp.1 = l) labelled).*2.

Lemma members_snoc l labelled l' p :
  members l (labelled ++ [(l', p)])
  = members l labelled ++ (if decide (l' = l) then [p] else []).
Proof.
  unfold members. rewrite filter_app, fmap_app. f_equal.
  rewrite filter_cons. simpl. by destruct (decide (l' = l)).
Qed.

Lemma group_append_keys l p cs :
  (group_append l p cs).*1
  = if decide (l ∈ cs.*1) then cs.*1 else cs.*1 ++ [l].
Proof.
  induction cs as [|[l0 g0] cs IH].
  - simpl. first [done|case_decide as H; [by apply elem_of_nil in H|done]].
  - cbn [group_append]. destruct (l0 =? l)%Z eqn:E.
    + apply Z.eqb_eq in E as ->. rewrite !fmap_cons. cbn [fst].
      destruct (decide (l ∈ l :: cs.*1)) as [H|H]; [done|].
      destruct H. by left.
    + apply Z.eqb_neq in E. rewrite !fmap_cons. cbn [fst]. rewrite IH.
      destruct (decide (l ∈ cs.*1)) as [H|H];
        destruct (decide (l ∈ l0 :: cs.*1)) as [H'|H']; try done.
      * destruct H'. by right.
      * apply elem_of_cons in H' as [->|H']; done.
Qed.

Lemma elem_of_group_append l p cs l0 g :
  NoDup cs.*1 ->
  (l0, g) ∈ group_append l p cs ->
  (l0 <> l /\ (l0, g) ∈ cs)
  \/ (l0 = l /\ ((exists g0, (l, g0) ∈ cs /\ g = g0 ++ [p])
                 \/ ((l ∉ cs.*1) /\ g = [p]))).
Proof.
  induction cs as [|[l1 g1] cs IH]; simpl; intros Hnd Hin.
  - apply list_elem_of_singleton in Hin as [= -> ->].
    right. split; [done|]. right. split; [|done]. by intros H%elem_of_nil.
  - inversion Hnd as [|? ? Hl1 Hnd']; subst.
    destruct (l1 =? l)%Z eqn:E.
    + apply Z.eqb_eq in E as ->.
      apply elem_of_cons in Hin as [[= -> ->]|Hin].
      * right. split; [done|]. left. exists g1. split; [by left|done].
      * left. split; [|by right]. intros ->. apply Hl1.
        apply list_elem_of_fmap. by exists (l, g).
    + apply Z.eqb_neq in E.
      apply elem_of_cons in Hin as [[= -> ->]|Hin].
      * left. split; [done|by left].
      * destruct (IH Hnd' Hin) as [[H1 H2]|[-> [(g0 & H1 & H2)|[H1 H2]]]].
        -- left. split; [done|by right].
        -- right. split; [done|]. left. exists g0. split; [by right|done].
        -- right. split; [done|]. right. split; [|done].
           intros [H|H]%elem_of_cons; [congruence|done].
Qed.

Lemma group_by_label_snoc labelled lp :
  group_by_label (labelled ++ [lp])
  = group_append lp.1 lp.2 (group_by_label labelled).
Proof. unfold group_by_label. by rewrite foldl_app. Qed.

(** The dictionary has one entry per label in use, holding the points
    with that label in arrival order. *)
Lemma group_by_label_spec labelled :
  NoDup (group_by_label labelled).*1
  /\ (forall l g, (l, g) ∈ group_by_label labelled ->
                  g = members l labelled /\ g <> [])
  /\ (forall lp, lp ∈ labelled -> lp.1 ∈ (group_by_label labelled).*1).
Proof.
  induction labelled as [|[l p] labelled IH] using rev_ind.
  - split_and!; [constructor| |].
    + intros l g H. by apply elem_of_nil in H.
    + intros lp H. by apply elem_of_nil in H.
  - destruct IH as (Hnd & Hmem & Hkeys).
    rewrite group_by_label_snoc. simpl.
    set (cs := group_by_label labelled) in *.
    split_and!.
    + rewrite group_append_keys. destruct (decide (l ∈ cs.*1)); [done|].
      apply NoDup_app. split_and!; [done| |apply NoDup_singleton].
      intros x Hx ->%list_elem_of_singleton. done.
    + intros l0 g Hin. rewrite members_snoc.
      destruct (elem_of_group_append l p cs l0 g Hnd Hin)
        as [[H1 H2]|[-> [(g0 & H1 & ->)|[H1 ->]]]].
      * destruct (Hmem l0 g H2) as [-> Hne].
        destruct (decide (l = l0)); [congruence|].
        by rewrite app_nil_r.
      * destruct (Hmem l g0 H1) as [-> Hne].
        destruct (decide (l = l)); [|done]. split; [done|].
        by destruct (members l labelled).
      * destruct (decide (l = l)); [|done]. split; [|done].
        assert (E : members l labelled = []).
        { unfold members. destruct (filter _ labelled) as [|lp rest] eqn:Ef; [done|].
          assert (Hlp : lp ∈ filter (fun lp => lp.1 = l) labelled)
            by (rewrite Ef; by left).
          apply list_elem_of_filter in Hlp as [Hl Hlp].
          destruct H1. rewrite <- Hl. by apply Hkeys. }
        by rewrite E.
    + intros lp Hlp. rewrite group_append_keys.
      apply elem_of_app in Hlp as [Hlp|Hlp%list_elem_of_singleton].
      * specialize (Hkeys lp Hlp).
        destruct (decide (l ∈ cs.*1)); [done|]. apply elem_of_app. by left.
      * subst lp. simpl. destruct (decide (l ∈ cs.*1)); [done|].
        apply elem_of_app. right. by left.
Qed.

Lemma filter_only {A} (P : A -> Prop) `{!forall x, Decision (P x)}
  (l : list A) i x :
  l !! i = Some x -> P x ->
  (forall j y, j <> i -> l !! j = Some y -> ~ P y) ->
  filter P l = [x].
Proof.
  revert i. induction l as [|a l IH]; intros i Hi Hx Hothers; [done|].
  rewrite filter_cons. destruct i as [|i]; simpl in Hi.
  - injection Hi as ->. destruct (decide (P x)); [|done]. f_equal.
    destruct (filter P l) as [|y rest] eqn:E; [done|].
    assert (Hy : y ∈ filter P l) by (rewrite E; by left).
    apply list_elem_of_filter in Hy as [Hy [j Hj]%list_elem_of_lookup].
    destruct (Hothers (S j) y); [lia|done|done].
  - destruct (decide (P a)) as [Ha|_].
    + destruct (Hothers 0 a); [lia|done|done].
    + apply (IH i); [done|done|].
      intros j y Hj Hjy. apply (Hothers (S j) y); [lia|done].
Qed.

Lemma rtc_isolated {A} (R : relation A) x y :
  rtc R x y -> (forall z, R x z -> z = x) -> y = x.
Proof.
  induction 1 as [|x y z Hxy _ IH]; intros Hiso; [done|].
  pose proof (Hiso y Hxy) as ->. by apply IH.
Qed.

(** *** Spatial clustering *)

Section SpatialClustering.
Variable radians : Q -> Q.
Variable central_angle : Q * Q -> Q * Q -> Q.
(** The central angle of a point with itself is 0, and the angle does
    not depend on the order of the two points. *)
Hypothesis central_angle_self : forall a, (central_angle a a == 0)%Q.
Hypothesis central_angle_sym :
  forall a b, (central_angle a b == central_angle b a)%Q.

Abbreviation cluster_points := (Detecter.cluster_points radians central_angle).
Abbreviation haversine_distance :=
  (Detecter.haversine_distance radians central_angle).

Definition coords (p : GeoPoint) : Q * Q := (p_latitude p, p_longitude p).

(** At most 5 km apart. *)
Definition within_5km (p q : GeoPoint) : Prop :=
  (haversine_distance (coords p) (coords q) <= 5)%Q.

Definition rad (p : GeoPoint) : Q * Q :=
  (radians (p_latitude p), radians (p_longitude p)).

Lemma within_eps c : Qleb c (5 / 6371) = true <-> (c * 6371 <= 5)%Q.
Proof.
  rewrite Qleb_le. split.
  - intros H. apply (Qmult_le_compat_r _ _ 6371) in H; [|done].
    eapply Qle_trans; [exact H|]. apply Qle_lteq. right. by vm_compute.
  - intros H. by apply Qle_shift_div_l.
Qed.

Lemma within_5km_eps p q :
  within_5km p q <-> Qleb (central_angle (rad p) (rad q)) (5 / 6371) = true.
Proof. by rewrite within_eps. Qed.

Lemma close_within points i j :
  close central_angle (5 / 6371) (radians_coords radians points) i j
  <-> exists p q, points !! i = Some p /\ points !! j = Some q
                  /\ within_5km p q.
Proof.
  unfold close, radians_coords. split.
  - intros (x & y & Hi & Hj & Hxy). rewrite list_lookup_fmap in Hi, Hj.
    destruct (points !! i) as [p|]; [|done].
    destruct (points !! j) as [q|]; [|done].
    simpl in Hi, Hj. injection Hi as <-. injection Hj as <-.
    exists p, q. split_and!; try done. by apply within_5km_eps.
  - intros (p & q & Hi & Hj & Hpq). exists (rad p), (rad q).
    rewrite !list_lookup_fmap, Hi, Hj. split_and!; try done.
    by apply within_5km_eps.
Qed.

(** C5. [cluster_points] always returns; its groups are the label
    classes of the points, in arrival order. Two points at most 5 km apart
    (haversine distance with radius 6371) get the same label and lie in the
    same group; a point more than 5 km from every other point is a group
    of its own. *)
Theorem cluster_points_within_5km (points : list GeoPoint) :
  exists labels groups,
    cluster_points points = Some groups
    /\ length labels = length points
    /\ NoDup groups.*1
    /\ (forall l g, (l, g) ∈ groups ->
          g = members l (zip labels points) /\ g <> [])
    /\ (forall i j p q,
          points !! i = Some p -> points !! j = Some q -> within_5km p q ->
          labels !! i = labels !! j
          /\ exists l g, (l, g) ∈ groups /\ p ∈ g /\ q ∈ g)
    /\ (forall i p,
          points !! i = Some p ->
          (forall j q, j <> i -> points !! j = Some q -> ~ within_5km p q) ->
          exists l, (l, [p]) ∈ groups).
Proof.
  destruct points as [|p0 ps] eqn:Ep.
  { exists [], []. simpl. split_and!; try done; [constructor|..].
    - intros l g H. by apply elem_of_nil in H. }
  rewrite <- Ep. set (X := radians_coords radians points).
  destruct (dbscan_labels_components central_angle (5 / 6371)) with (X := X)
    as (labels & Hd & Hlen & Hlab & Hcomp).
  { intros x. apply Qleb_le. rewrite central_angle_self. done. }
  { intros x y. destruct (Qleb (central_angle y x) (5 / 6371)) eqn:E.
    - apply Qleb_le. apply Qleb_le in E. by rewrite central_angle_sym.
    - destruct (Qleb (central_angle x y) (5 / 6371)) eqn:E'; [|done].
      apply Qleb_le in E'. rewrite central_angle_sym in E'.
      apply Qleb_le in E'. congruence. }
  assert (HX : length X = length points).
  { unfold X, radians_coords. by rewrite length_fmap. }
  rewrite HX in Hlen, Hlab, Hcomp.
  set (lps := zip labels points).
  destruct (group_by_label_spec lps) as (Hnd & Hmem & Hkeys).
  assert (Hgroup : forall i l p,
            labels !! i = Some l -> points !! i = Some p ->
            exists g, (l, g) ∈ group_by_label lps /\ p ∈ g
                      /\ g = members l lps).
  { intros i l p Hl Hp.
    assert (Hin : (l, p) ∈ lps).
    { apply list_elem_of_lookup. exists i. by apply lookup_zip_Some. }
    apply Hkeys in Hin. simpl in Hin.
    apply list_elem_of_fmap in Hin as ([l' g] & -> & Hg). simpl.
    exists g. destruct (Hmem _ _ Hg) as [-> _]. split_and!; try done.
    unfold members. apply list_elem_of_fmap. exists (l', p). split; [done|].
    apply list_elem_of_filter. split; [done|].
    apply list_elem_of_lookup. exists i. by apply lookup_zip_Some. }
  exists labels, (group_by_label lps).
  split_and!; try done.
  - unfold Detecter.cluster_points. rewrite Ep at 1. fold X. by rewrite Hd.
  - intros i j p q Hi Hj Hpq.
    assert (Hi' : i < length points) by (by eapply lookup_lt_Some).
    assert (Hj' : j < length points) by (by eapply lookup_lt_Some).
    assert (E : labels !! i = labels !! j).
    { apply Hcomp; [done|done|]. apply rtc_once. apply close_within.
      by exists p, q. }
    split; [done|]. destruct (Hlab i Hi') as (l & Hl & _).
    destruct (Hgroup i l p Hl Hi) as (g & Hg & Hpg & ->).
    rewrite E in Hl.
    destruct (Hgroup j l q Hl Hj) as (g' & Hg' & Hqg & Hg'').
    exists l, (members l lps). split_and!; try done. by rewrite <- Hg''.
  - intros i p Hi Hiso.
    assert (Hi' : i < length points) by (by eapply lookup_lt_Some).
    destruct (Hlab i Hi') as (l & Hl & _).
    destruct (Hgroup i l p Hl Hi) as (g & Hg & _ & ->).
    exists l. replace [p] with (members l lps); [done|].
    unfold members.
    rewrite (filter_only (fun lp => lp.1 = l) lps i (l, p)); [done| |done|].
    + by apply lookup_zip_Some.
    + intros j [l' q] Hji [Hl' Hq]%lookup_zip_Some. simpl. intros ->.
      assert (Hj' : j < length points) by (by eapply lookup_lt_Some).
      assert (Hc : rtc (close central_angle (5 / 6371) X) i j).
      { apply Hcomp; [done|done|congruence]. }
      apply rtc_isolated in Hc; [done|].
      intros k (p' & q' & Hp' & Hq' & Hw)%close_within.
      destruct (decide (k = i)) as [->|Hk]; [done|].
      assert (p' = p) as -> by congruence.
      by destruct (Hiso k q' Hk Hq').
Qed.

End SpatialClustering.

(** *** Point confidence and the zero-weight guard *)

Lemma confidence_or_one_nonzero c : ~ (confidence_or_one c == 0)%Q.
Proof.
  unfold confidence_or_one. destruct c as [| |x]; simpl; try done.
  destruct (Qeqb x 0) eqn:E; [done|].
  intros H. apply Qeqb_eq in H. congruence.
Qed.

Lemma foldl_Qplus_ge acc xs :
  Forall (fun x => (0 < x)%Q) xs -> (acc <= foldl Qplus acc xs)%Q.
Proof.
  revert acc. induction xs as [|x xs IH]; intros acc Hxs; simpl.
  - apply Qle_refl.
  - inversion Hxs; subst. eapply Qle_trans; [|by apply IH].
    rewrite <- (Qplus_0_r acc) at 1. apply Qplus_le_r. by apply Qlt_le_weak.
Qed.

Lemma sumQ_pos xs :
  xs <> [] -> Forall (fun x => (0 < x)%Q) xs -> (0 < sumQ xs)%Q.
Proof.
  unfold sumQ. destruct xs as [|x xs]; [done|]. intros _ Hxs.
  inversion Hxs; subst. simpl.
  eapply Qlt_le_trans; [|by apply foldl_Qplus_ge].
  by rewrite Qplus_0_l.
Qed.

(** The confidence attribute of a source record, when it has a value, is
    not negative (it is a score in [0, 1]). *)
Definition confidence_in_range (c : attr Q) : Prop :=
  match c with
  | Has x => (0 <= x)%Q
  | _ => True
  end.

Lemma confidence_or_one_pos c :
  confidence_in_range c -> (0 < confidence_or_one c)%Q.
Proof.
  unfold confidence_or_one. destruct c as [| |x]; simpl; try done.
  intros Hx. destruct (Qeqb x 0) eqn:E; [done|].
  apply Qle_lteq in Hx as [Hx|Hx]; [done|].
  symmetry in Hx. apply Qeqb_eq in Hx. congruence.
Qed.

Section Points.
Variable requests_get : string -> Q -> http_outcome.
Variable py_float : string -> option Q.

Abbreviation process_hotspot := (_process_hotspot requests_get py_float).

(** C10. A point built by [_process_hotspot] carries the source record's
    confidence, except that a missing attribute, [None] and 0 all become 1:
    the point's confidence is never 0. For a group of such points (not
    empty, the source confidences not negative), the sum of the confidences
    is positive, so the guard [if total_confidence == 0] does not fire and
    the weights used are the confidences themselves. *)
Theorem point_confidence_never_zero :
  (forall ty hotspot st p st',
      process_hotspot ty hotspot st = (Ok (Some p), st') ->
      p_confidence p = confidence_or_one (hs_confidence hotspot)
      /\ p_payload p = hotspot /\ p_type p = ty
      /\ ~ (p_confidence p == 0)%Q)
  /\ confidence_or_one Missing = 1%Q
  /\ confidence_or_one IsNone = 1%Q
  /\ (forall x, (x == 0)%Q -> confidence_or_one (Has x) = 1%Q)
  /\ (forall x, ~ (x == 0)%Q -> confidence_or_one (Has x) = x)
  /\ (forall cluster_points,
        cluster_points <> [] ->
        Forall (fun p =>
                  p_confidence p = confidence_or_one (hs_confidence (p_payload p))
                  /\ confidence_in_range (hs_confidence (p_payload p)))
               cluster_points ->
        Qeqb (sumQ (p_confidence <$> cluster_points)) 0 = false
        /\ total_confidence cluster_points
           = sumQ (p_confidence <$> cluster_points)).
Proof.
  split_and!.
  - intros ty hotspot st p st'. unfold _process_hotspot.
    destruct (geocode _ _ _ _) as [[[coords|]|e] st1]; [|done..].
    intros [= <- <-]. simpl. split_and!; try done.
    apply confidence_or_one_nonzero.
  - done.
  - done.
  - intros x Hx. unfold confidence_or_one. simpl.
    apply Qeqb_eq in Hx. by rewrite Hx.
  - intros x Hx. unfold confidence_or_one. simpl.
    destruct (Qeqb x 0) eqn:E; [|done]. by apply Qeqb_eq in E.
  - intros cluster_points Hne Hall.
    assert (Hpos : (0 < sumQ (p_confidence <$> cluster_points))%Q).
    { apply sumQ_pos; [by destruct cluster_points|].
      apply Forall_fmap. eapply Forall_impl; [exact Hall|].
      intros p [Hc Hr]. simpl. rewrite Hc. by apply confidence_or_one_pos. }
    assert (E : Qeqb (sumQ (p_confidence <$> cluster_points)) 0 = false).
    { destruct (Qeqb _ 0) eqn:E; [|done]. apply Qeqb_eq in E.
      rewrite E in Hpos. by apply Qlt_irrefl in Hpos. }
    split; [done|]. unfold total_confidence. by rewrite E.
Qed.

(** *** GeoCoder *)

Abbreviation geocode_uncached := (Detecter.geocode_uncached requests_get py_float).
Abbreviation geocode := (Detecter.geocode requests_get py_float).

(** The rate-limit budget and the traffic: everything but the cache. *)
Definition budget (st : GeoState) : Q * Q * list Q * list string * nat * nat :=
  (last_call_time st, clock st, sleeps st, sent st,
   GEOCODING_REQUESTS st, GEOCODING_ERRORS st).

(** Every stored answer for a blank location is "no result". *)
Definition cache_ok (st : GeoState) : Prop :=
  forall location v,
    blank location = true -> cache_find location (cache st) = Some v -> v = None.

Lemma geocode_uncached_blank location st :
  blank location = true -> geocode_uncached location st = (Ok None, st).
Proof. intros H. unfold Detecter.geocode_uncached. by rewrite H. Qed.

Lemma geocode_uncached_no_raise location st e :
  (geocode_uncached location st).1 <> Raise e.
Proof.
  unfold Detecter.geocode_uncached. destruct (blank location); [done|].
  simpl. by destruct (fetch _ _ _ _).
Qed.

Lemma geocode_no_raise location st e : (geocode location st).1 <> Raise e.
Proof.
  unfold Detecter.geocode. destruct (cache_find _ _); [done|].
  pose proof (geocode_uncached_no_raise location st) as H.
  destruct (geocode_uncached location st) as [[v|e'] st']; [done|].
  by destruct (H e').
Qed.

(** C9. A blank or whitespace-only location gives "no result" and leaves
    the rate-limit budget alone: no sleep, no request, clock, last call
    time and counters unchanged (through the cache as well, as long as the
    cache holds no foreign entry for a blank key). No call ever raises; a
    request that fails in transport, at whatever time it is sent, gives
    "no result". *)
Theorem geocode_blank_and_failures location st :
  (blank location = true ->
     geocode_uncached location st = (Ok None, st)
     /\ budget (geocode location st).2 = budget st
     /\ (cache_ok st -> (geocode location st).1 = Ok None))
  /\ (forall e, (geocode_uncached location st).1 <> Raise e)
  /\ (forall e, (geocode location st).1 <> Raise e)
  /\ (blank location = false ->
      (forall t, requests_get location t = TransportFailure) ->
      (geocode_uncached location st).1 = Ok None
      /\ (cache_find location (cache st) = None ->
          (geocode location st).1 = Ok None)).
Proof.
  split_and!.
  - intros Hb. split_and!.
    + by apply geocode_uncached_blank.
    + unfold Detecter.geocode. destruct (cache_find _ _) as [v|]; [done|].
      by rewrite geocode_uncached_blank.
    + intros Hok. unfold Detecter.geocode.
      destruct (cache_find _ _) as [v|] eqn:E.
      * simpl. f_equal. by eapply Hok.
      * by rewrite geocode_uncached_blank.
  - apply geocode_uncached_no_raise.
  - apply geocode_no_raise.
  - intros Hb Hfail.
    assert (H1 : (geocode_uncached location st).1 = Ok None).
    { unfold Detecter.geocode_uncached. rewrite Hb. simpl.
      unfold fetch. by rewrite Hfail. }
    split; [done|]. intros Hc. unfold Detecter.geocode. rewrite Hc.
    destruct (geocode_uncached location st) as [[v|e] st'];
      simpl in *; congruence.
Qed.

End Points.

End DetecterSpec.

(** ** The aggregator on concrete groups *)

Module DetecterExamples.
Import Detecter DetecterSpec Standins.

Abbreviation find_existing :=
  (Detecter.find_existing radians_approx central_angle_taxicab).
Abbreviation update_or_create :=
  (update_or_create_composite_hotspot radians_approx central_angle_taxicab).

(** One persisted hotspot at (10, 20): severity high, risk low, 10 reports. *)
Definition stored_hotspot : CompositeHotspot :=
  mkCompositeHotspot 1 (inject_Z 10) (inject_Z 20) None (Some 0%Q) (Some [])
                     "high" "low" 10.

Definition table : list CompositeHotspot := [stored_hotspot].

Definition disaster_record (id : Z) (conf : Q) (severity risk : string) : Hotspot :=
  mkHotspot (Some "Perth") pending (Has id) (Has conf) Missing Missing
            (Has "fire") (Has severity) (Has risk).

Definition human_record (id : Z) (conf : Q) : Hotspot :=
  mkHotspot (Some "Perth") pending (Has id) (Has conf)
            (Has [("fear", 1 # 2)]) (Has "High") Missing Missing Missing.

(** A point at the stored hotspot's coordinates. *)
Definition point_at_hotspot (ty : string) (h : Hotspot) (conf : Q) : GeoPoint :=
  mkGeoPoint ty h (inject_Z 10) (inject_Z 20) conf.

(** A point far away from it. *)
Definition point_elsewhere (ty : string) (h : Hotspot) (conf : Q) : GeoPoint :=
  mkGeoPoint ty h (inject_Z 50) (inject_Z 60) conf.

Definition critical_group : list GeoPoint :=
  [point_at_hotspot "disaster" (disaster_record 42 (7 # 8) "critical" "high") (7 # 8)].

Definition tied_group : list GeoPoint :=
  [point_at_hotspot "disaster" (disaster_record 1 1 "low" "high") 1;
   point_at_hotspot "disaster" (disaster_record 2 1 "low" "low") 1].

Definition fresh_group : list GeoPoint :=
  [point_elsewhere "human" (human_record 7 (8 # 10)) (8 # 10);
   point_elsewhere "disaster" (disaster_record 7 (9 # 10) "high" "high") (9 # 10);
   point_elsewhere "disaster" (disaster_record 8 1 "low" "low") 1].

(** The stored hotspot is "high"; a critical disaster point of confidence
    0.875 weighs 3.5, the greatest value, which is not a key of the reverse
    mapping, and the merged level is "low". *)
Lemma merge_severity_counterexample :
  find_existing table (centroid critical_group) = Some stored_hotspot
  /\ ch_severity_level stored_hotspot = "high"
  /\ (exists db' out,
        update_or_create table critical_group = Ok (db', out)
        /\ out_severity_level out = "low")
  /\ (severity_rank "low" < severity_rank "high")%Q.
Proof.
  split_and!; [vm_compute; reflexivity|reflexivity| |reflexivity].
  assert (E : match update_or_create table critical_group with
              | Ok (_, out) => Some (out_severity_level out)
              | Raise _ => None
              end = Some "low") by (vm_compute; reflexivity).
  destruct (update_or_create table critical_group) as [[db' out]|e]; [|done].
  exists db', out. split; [done|]. by injection E.
Qed.

(** The orchestrator stores every disaster hotspot with confidence 0.9. *)
Definition orchestrator_group : list GeoPoint :=
  [point_at_hotspot "disaster" (disaster_record 42 (9 # 10) "critical" "high")
                    (9 # 10)].

Definition full_confidence_group : list GeoPoint :=
  [point_at_hotspot "disaster" (disaster_record 42 1 "critical" "high") 1].

(** C7. The code at the failing input. The stored hotspot is "high" and
    the group holds one critical disaster point. The code takes the maximum
    of the existing rank 3 and the weighted value 4 * confidence and looks
    it up in the reverse mapping, whose keys are 4, 3, 2, 1. With confidence
    1 the maximum is 4 and the merged level is "critical". With confidence
    0.9 the maximum is 3.6, which is no key: the merged level is the default
    "low", below the existing "high". *)
Theorem merge_severity_falls_to_low :
  find_existing table (centroid orchestrator_group) = Some stored_hotspot
  /\ find_existing table (centroid full_confidence_group) = Some stored_hotspot
  /\ ch_severity_level stored_hotspot = "high"
  /\ (exists db' out,
        update_or_create table orchestrator_group = Ok (db', out)
        /\ out_severity_level out = "low"
        /\ (severity_rank (out_severity_level out)
            < severity_rank (ch_severity_level stored_hotspot))%Q)
  /\ (exists db' out,
        update_or_create table full_confidence_group = Ok (db', out)
        /\ out_severity_level out = "critical").
Proof.
  split_and!; [vm_compute; reflexivity|vm_compute; reflexivity|reflexivity|..].
  - assert (E : match update_or_create table orchestrator_group with
                | Ok (_, out) => Some (out_severity_level out)
                | Raise _ => None
                end = Some "low") by (vm_compute; reflexivity).
    destruct (update_or_create table orchestrator_group) as [[db' out]|e];
      [|discriminate E].
    exists db', out. injection E as E. split; [reflexivity|].
    split; [exact E|]. rewrite E. reflexivity.
  - assert (E : match update_or_create table full_confidence_group with
                | Ok (_, out) => Some (out_severity_level out)
                | Raise _ => None
                end = Some "critical") by (vm_compute; reflexivity).
    destruct (update_or_create table full_confidence_group) as [[db' out]|e];
      [|discriminate E].
    exists db', out. injection E as E. split; [reflexivity|exact E].
Qed.

(** C8 fails as stated: the stored hotspot has risk level "low" and 10
    reports; the group tallies "high" once and "low" once, so the group's
    most frequent level is no more frequent than the stored one, yet the
    merged level is "high", the level tallied first. *)
Lemma merge_risk_counterexample :
  find_existing table (centroid tied_group) = Some stored_hotspot
  /\ ch_risk_level stored_hotspot = "low"
  /\ ch_contributing_reports_count stored_hotspot = 10%Z
  /\ counter_get "high" (risk_counts (aggregate tied_group)) = 1
  /\ counter_get "low" (risk_counts (aggregate tied_group)) = 1
  /\ (exists db' out,
        update_or_create table tied_group = Ok (db', out)
        /\ out_risk_level out = "high").
Proof.
  split_and!; [vm_compute; reflexivity|reflexivity..|].
  assert (E : match update_or_create table tied_group with
              | Ok (_, out) => Some (out_risk_level out)
              | Raise _ => None
              end = Some "high") by (vm_compute; reflexivity).
  destruct (update_or_create table tied_group) as [[db' out]|e]; [|done].
  exists db', out. split; [done|]. by injection E.
Qed.

Lemma merge_runs (group : list GeoPoint) :
  match update_or_create table group with Ok _ => true | Raise _ => false end
  = true ->
  exists db' out, update_or_create table group = Ok (db', out).
Proof. destruct (update_or_create table group) as [[db' out]|e]; by eauto. Qed.

Lemma merge_count_monotone_witness :
  exists db' out stored,
    update_or_create table critical_group = Ok (db', out)
    /\ db_get db' 1 = Some stored
    /\ (10 <= ch_contributing_reports_count stored)%Z.
Proof.
  destruct (merge_runs critical_group) as (db' & out & E);
    [vm_compute; reflexivity|].
  destruct (merge_count_monotone radians_approx central_angle_taxicab
              table critical_group stored_hotspot db' out)
    as (stored & Hg & _ & Hle & _); [vm_compute; reflexivity|exact E|].
  by exists db', out, stored.
Defined.

Lemma merge_severity_level_witness :
  exists db' out,
    update_or_create table tied_group = Ok (db', out)
    /\ out_severity_level out = "high".
Proof.
  destruct (merge_runs tied_group) as (db' & out & E);
    [vm_compute; reflexivity|].
  destruct (merge_severity_level radians_approx central_angle_taxicab
              table tied_group stored_hotspot db' out)
    as (Hs & _); [vm_compute; reflexivity|exact E|].
  exists db', out. split; [done|]. rewrite Hs. vm_compute. reflexivity.
Defined.

Lemma merge_risk_level_witness :
  exists db' out i n,
    update_or_create table tied_group = Ok (db', out)
    /\ risk_counts (aggregate tied_group) !! i = Some (out_risk_level out, n).
Proof.
  destruct (merge_runs tied_group) as (db' & out & E);
    [vm_compute; reflexivity|].
  destruct (merge_risk_level radians_approx central_angle_taxicab
              table tied_group stored_hotspot db' out)
    as (_ & _ & Hr & _); [vm_compute; reflexivity|exact E|].
  destruct Hr as (i & n & Hi & _); [vm_compute; discriminate|].
  by exists db', out, i, n.
Defined.

(** Report 7 contributes a human and a disaster point and is counted once. *)
Lemma created_count_distinct_ids_witness :
  exists created,
    update_or_create table fresh_group
    = Ok (table ++ [created], to_hotspot_data created)
    /\ ch_contributing_reports_count created = 2%Z.
Proof.
  destruct (created_count_distinct_ids radians_approx central_angle_taxicab
              table fresh_group) as (created & Hu & Hc & _).
  { vm_compute; reflexivity. }
  exists created. split; [done|]. rewrite Hc. vm_compute. reflexivity.
Defined.

Definition no_network (location : string) (t : Q) : http_outcome :=
  TransportFailure.

Definition no_float (s : string) : option Q := None.

Definition fresh_geocoder : GeoState := mkGeoState 0 [] 0 [] [] 0 0.

Lemma point_confidence_never_zero_witness :
  total_confidence fresh_group = sumQ (p_confidence <$> fresh_group).
Proof.
  apply (proj2 (proj2 (proj2 (proj2 (proj2
           (point_confidence_never_zero no_network no_float)))))).
  - discriminate.
  - repeat constructor; vm_compute; discriminate.
Defined.

Lemma geocode_blank_and_failures_witness :
  geocode_uncached no_network no_float "   " fresh_geocoder
  = (Ok None, fresh_geocoder)
  /\ (geocode_uncached no_network no_float "Perth" fresh_geocoder).1 = Ok None.
Proof.
  destruct (geocode_blank_and_failures no_network no_float "   " fresh_geocoder)
    as (Hb & _).
  destruct (geocode_blank_and_failures no_network no_float "Perth" fresh_geocoder)
    as (_ & _ & _ & Hf).
  split.
  - apply Hb. vm_compute. reflexivity.
  - destruct Hf as [H _]; [vm_compute; reflexivity|done|exact H].
Defined.

Lemma central_angle_taxicab_self a : (central_angle_taxicab a a == 0)%Q.
Proof.
  unfold central_angle_taxicab.
  assert (E : forall x : Q, (Qabs (x - x) == 0)%Q).
  { intros x. assert (H : (x - x == 0)%Q) by ring. rewrite H. reflexivity. }
  rewrite !E. reflexivity.
Qed.

Lemma central_angle_taxicab_sym a b :
  (central_angle_taxicab a b == central_angle_taxicab b a)%Q.
Proof.
  unfold central_angle_taxicab.
  by rewrite (Qabs_Qminus a.1 b.1), (Qabs_Qminus a.2 b.2).
Qed.

(** Two points at the same place and one far away. *)
Definition mixed_group : list GeoPoint :=
  [point_at_hotspot "disaster" (disaster_record 1 1 "low" "high") 1;
   point_elsewhere "disaster" (disaster_record 8 1 "low" "low") 1;
   point_at_hotspot "human" (human_record 2 1) 1].

Lemma cluster_points_within_5km_witness :
  exists groups,
    cluster_points radians_approx central_angle_taxicab mixed_group = Some groups
    /\ length groups = 2.
Proof.
  destruct (cluster_points_within_5km radians_approx central_angle_taxicab
              central_angle_taxicab_self central_angle_taxicab_sym mixed_group)
    as (labels & groups & Hc & _).
  exists groups. split; [exact Hc|].
  assert (E : length <$> cluster_points radians_approx central_angle_taxicab
                           mixed_group = Some 2) by (vm_compute; reflexivity).
  rewrite Hc in E. by injection E.
Defined.

End DetecterExamples.

(** ** Further properties of the checker *)

Module CheckerMore.
Import Checker CheckerSpec Standins.

Section Matching.
Variable token_set_ratio : string -> string -> Q.
Variable strptime : string -> option Z.
Variable cfg : Config.

Abbreviation create := (_create_clusters token_set_ratio strptime cfg).
Abbreviation joins := (Checker.joins token_set_ratio strptime cfg).
Abbreviation match_count := (Checker.match_count token_set_ratio strptime cfg).
Abbreviation total_fields := (Checker.total_fields token_set_ratio strptime cfg).
Abbreviation time_within_window := (Checker.time_within_window strptime cfg).

(** A report joins a cluster exactly when at least two of the compared
    fields match its anchor: with at most four fields, the bound
    [max(2, total_fields // 2)] is always 2, so one matching field never
    suffices, even when only two fields are present on both sides. *)
Theorem joins_iff_two_matches (report rep : Report) :
  joins report rep = true <-> 2 <= match_count report rep.
Proof.
  unfold Checker.joins, Checker.match_count, Checker.total_fields,
    event_type_field, location_field, timestamp_field, description_field.
  destruct (both (event_type report) (event_type rep));
    destruct (both (location report) (location rep));
    destruct (both (timestamp report) (timestamp rep));
    destruct (both (description report) (description rep));
    repeat match goal with
           | |- context [if ?b then 1 else 0] => destruct b
           end;
    simpl; split; intros H; try done; try lia.
Qed.

(** The number of matching fields never exceeds the number of fields
    present on both sides, which is at most four. *)
Theorem match_count_le_total (report rep : Report) :
  match_count report rep <= total_fields report rep
  /\ total_fields report rep <= 4.
Proof.
  unfold Checker.match_count, Checker.total_fields,
    event_type_field, location_field, timestamp_field, description_field.
  destruct (both (event_type report) (event_type rep));
    destruct (both (location report) (location rep));
    destruct (both (timestamp report) (timestamp rep));
    destruct (both (description report) (description rep));
    repeat match goal with
           | |- context [if ?b then 1 else 0] => destruct b
           end;
    simpl; lia.
Qed.

(** The time-window test does not depend on the order of its arguments,
    and a timestamp that does not parse is within no window. *)
Theorem time_within_window_sym (t1 t2 : option string) :
  time_within_window t1 t2 = time_within_window t2 t1
  /\ (forall s1 s2, strptime s1 = None ->
        time_within_window (Some s1) (Some s2) = false
        /\ time_within_window (Some s2) (Some s1) = false).
Proof.
  split.
  - unfold Checker.time_within_window.
    destruct t1 as [s1|], t2 as [s2|]; try done.
    destruct (strptime s1) as [a|], (strptime s2) as [b|]; try done.
    by replace (Z.abs (b - a)) with (Z.abs (a - b)) by lia.
  - intros s1 s2 H. unfold Checker.time_within_window. rewrite H.
    split; [done|]. by destruct (strptime s2).
Qed.

(** Clustering is stable under extension of the batch: the clusters of a
    batch followed by more reports are the clusters of the batch, each
    possibly extended at its end, followed by new clusters. Nothing is
    merged, split or reordered. *)
Theorem create_clusters_extends (xs ys : list Report) :
  grows (create xs) (create (xs ++ ys))
  /\ length (create xs) <= length (create (xs ++ ys)).
Proof.
  unfold _create_clusters. rewrite cluster_loop_app.
  assert (G : grows (cluster_loop joins [] xs)
                    (cluster_loop joins (cluster_loop joins [] xs) ys))
    by apply cluster_loop_grows.
  split; [done|].
  destruct (decide (length (cluster_loop joins [] xs) = 0)) as [->|Hne]; [lia|].
  set (cs := cluster_loop joins [] xs) in *.
  destruct (lookup_lt_is_Some_2 cs (length cs - 1)) as [c Hc]; [lia|].
  destruct (G _ _ Hc) as (c' & Hc' & _). apply lookup_lt_Some in Hc'. lia.
Qed.

Lemma length_concat_nonempty {A} (cs : list (list A)) :
  Forall (fun c => c <> []) cs -> length cs <= length (concat cs).
Proof.
  induction 1 as [|c cs Hc _ IH]; simpl; [done|].
  rewrite length_app. destruct c; [done|]. simpl. lia.
Qed.

(** There are never more clusters than reports, and the first report of
    a batch is the anchor of the first cluster. *)
Theorem create_clusters_first_anchor (r : Report) (rs : list Report) :
  length (create (r :: rs)) <= length (r :: rs)
  /\ exists tail, create (r :: rs) !! 0 = Some (r :: tail).
Proof.
  split.
  - etrans; [apply length_concat_nonempty|].
    + apply cluster_loop_nonempty. constructor.
    + unfold _create_clusters. by rewrite cluster_loop_perm.
  - unfold _create_clusters. change (r :: rs) with ([r] ++ rs).
    rewrite cluster_loop_app.
    destruct (cluster_loop_grows joins (cluster_loop joins [] [r]) rs 0 [r])
      as (c & Hc & [t ->]); [done|].
    by exists t.
Qed.

End Matching.

Lemma process_cluster_ok cfg cluster :
  (exists best, best ∈ cluster
                /\ process_cluster cfg cluster = Ok (Some (mark_verified best)))
  \/ process_cluster cfg cluster = Ok None.
Proof.
  unfold process_cluster.
  destruct (passes_gate _ _) eqn:G; [|by right].
  destruct cluster as [|r0 rest].
  - by vm_compute in G.
  - left. simpl. exists (max_from confidence_key Qltb r0 rest). split; [|done].
    destruct (max_from_first_max confidence_key Qltb Qltb_asym Qleb_ltb_trans
                r0 rest) as (i & Hi & _).
    by eapply list_elem_of_lookup_2.
Qed.

(** [process_clusters] never raises ([max] is never applied to an empty
    cluster, which the gate rejects); it emits at most one report per
    cluster, and every emitted report is a report of one of the clusters
    with its veracity flag set to "verified" and a non-empty reporter. *)
Theorem process_clusters_total (cfg : Config) (clusters : list (list Report)) :
  exists verified,
    process_clusters cfg clusters = Ok verified
    /\ length verified <= length clusters
    /\ Forall (fun r =>
                 veracity_flag r = Some "verified"
                 /\ PyStr.truthy (reporter r) = true
                 /\ exists cluster best,
                      cluster ∈ clusters /\ best ∈ cluster
                      /\ r = mark_verified best)
              verified.
Proof.
  induction clusters as [|c cs IH].
  - exists []. by split_and!.
  - destruct IH as (vs & Hvs & Hlen & Hall). simpl.
    assert (Hall' : Forall (fun r =>
                 veracity_flag r = Some "verified"
                 /\ PyStr.truthy (reporter r) = true
                 /\ exists cluster best,
                      cluster ∈ c :: cs /\ best ∈ cluster
                      /\ r = mark_verified best) vs).
    { eapply Forall_impl; [exact Hall|]. intros r (H1 & H2 & cl & b & H3 & H4).
      split_and!; try done. exists cl, b. split; [by right|done]. }
    destruct (process_cluster_ok cfg c) as [(best & Hb & ->)| ->]; simpl;
      rewrite Hvs; simpl.
    + exists (mark_verified best :: vs). split_and!; [done|simpl; lia|].
      constructor; [|done]. split_and!; [done| |].
      * simpl. by destruct (reporter best) as [[|]|].
      * exists c, best. split_and!; [by left|done|done].
    + exists vs. split_and!; [done|lia|done].
Qed.

(** A batch of one report: the report is emitted, marked verified, when
    its source is trusted, and dropped otherwise. *)
Theorem run_single_report token_set_ratio strptime (cfg : Config) (r : Report) :
  run token_set_ratio strptime cfg [r]
  = Ok (if is_source_trusted cfg (source r) then [mark_verified r] else []).
Proof.
  unfold run, _create_clusters, cluster_loop. simpl. unfold place. simpl.
  unfold process_cluster, trusted_count. simpl.
  destruct (is_source_trusted cfg (source r)); done.
Qed.

(** A missing, empty or whitespace-only source is never trusted, whatever
    the configured set of trusted sources contains. *)
Theorem blank_source_untrusted (cfg : Config) (src : option string) :
  match src with
  | Some s => PyStr.strip s = ""
  | None => True
  end ->
  is_source_trusted cfg src = false.
Proof.
  unfold is_source_trusted, normalize_source.
  destruct src as [s|]; [|done]. intros Hs.
  destruct s as [|c s]; [done|]. simpl PyStr.truthy. cbv iota.
  simpl. by rewrite Hs.
Qed.

Lemma blank_source_untrusted_witness :
  is_source_trusted default_config (Some "   ") = false.
Proof. apply blank_source_untrusted. vm_compute. reflexivity. Defined.

Lemma time_within_window_sym_witness :
  Checker.time_within_window iso_seconds default_config
    (Some "yesterday") (Some "2025-09-14T12:00:00Z") = false.
Proof.
  destruct (proj2 (time_within_window_sym iso_seconds default_config None None)
              "yesterday" "2025-09-14T12:00:00Z") as [H _];
    [vm_compute; reflexivity|exact H].
Defined.

End CheckerMore.

(** ** Further properties of the detecter *)

Module DetecterMore.
Import Detecter DetecterSpec Standins.

Section Table.
Variable radians : Q -> Q.
Variable central_angle : Q * Q -> Q * Q -> Q.

Abbreviation find_existing := (Detecter.find_existing radians central_angle).
Abbreviation update_or_create :=
  (Detecter.update_or_create_composite_hotspot radians central_angle).

Lemma foldl_merge_emotion_raise count total e l :
  foldl (merge_emotion count total) (Raise e) l = Raise e.
Proof. induction l as [|x l IH]; simpl; done. Qed.

Lemma foldl_merge_emotion_zero count total m l :
  Qeqb total 0 = true ->
  foldl (merge_emotion count total) (Ok m) l
  = match l with [] => Ok m | _ => Raise ZeroDivisionError end.
Proof.
  intros Ht. destruct l as [|x l]; [done|]. simpl.
  unfold py_div. rewrite Ht. simpl. apply foldl_merge_emotion_raise.
Qed.

Lemma foldl_merge_emotion_ok count total l :
  Qeqb total 0 = false ->
  forall m, exists m', foldl (merge_emotion count total) (Ok m) l = Ok m'.
Proof.
  intros Ht. induction l as [|x l IH]; intros m; simpl; [by eexists|].
  unfold py_div. rewrite Ht. simpl. apply IH.
Qed.

Lemma merged_values_zero existing a avg :
  (ch_contributing_reports_count existing + Z.of_nat (size (report_ids a)))%Z
  = 0%Z ->
  merged_values existing a avg = Raise ZeroDivisionError.
Proof.
  intros H0. unfold merged_values. rewrite H0.
  rewrite foldl_merge_emotion_zero by done.
  destruct (map_to_list (emotion_agg a)); [|done]. simpl.
  unfold py_div. done.
Qed.

Lemma merged_values_nonzero existing a avg :
  (ch_contributing_reports_count existing + Z.of_nat (size (report_ids a)))%Z
  <> 0%Z ->
  exists row, merged_values existing a avg = Ok row.
Proof.
  intros H0. unfold merged_values.
  pose proof (inject_Z_nonzero _ H0) as Ht.
  destruct (foldl_merge_emotion_ok
              (inject_Z (ch_contributing_reports_count existing))
              (inject_Z (ch_contributing_reports_count existing
                         + Z.of_nat (size (report_ids a))))
              (map_to_list (emotion_agg a)) Ht
              (default ∅ (ch_aggregated_emotions existing))) as [m ->].
  cbn [bind]. unfold py_div at 1. rewrite Ht. cbn [bind].
  assert (Hrisk : exists r,
    match risk_counts a with
    | [] => Ok (ch_risk_level existing)
    | _ => most_common_key (risk_counts a)
    end = Ok r).
  { destruct (risk_counts a) as [|e es]; by eexists. }
  destruct Hrisk as [r ->]. cbn [bind].
  unfold py_div. rewrite Ht. cbn [bind]. by eexists.
Qed.

(** A merge divides by the new total. When the existing hotspot's count
    and the group's number of distinct report ids add up to 0 (a hotspot
    stored with count 0 and points without report ids), the call raises
    [ZeroDivisionError] and writes nothing; in every other case the merge
    succeeds. *)
Theorem merge_raises_iff_zero_total db cluster_points existing :
  find_existing db (centroid cluster_points) = Some existing ->
  let total := (ch_contributing_reports_count existing
                + Z.of_nat (size (batch_report_ids cluster_points)))%Z in
  (total = 0%Z ->
   update_or_create db cluster_points = Raise ZeroDivisionError)
  /\ (total <> 0%Z ->
      exists db' out, update_or_create db cluster_points = Ok (db', out)).
Proof.
  intros Hf total. unfold Detecter.update_or_create_composite_hotspot.
  rewrite Hf. subst total. rewrite <- aggregate_report_ids. split.
  - intros H0. by rewrite merged_values_zero.
  - intros H0.
    destruct (merged_values_nonzero existing (aggregate cluster_points)
                (centroid cluster_points) H0) as [row Hrow].
    rewrite Hrow. cbn [bind].
    pose proof (merged_values_fields _ _ _ _ Hrow) as (Hid & _).
    rewrite <- Hid. rewrite db_get_update; [by eexists _, _|].
    exists existing. split; [by eapply find_existing_elem|done].
Qed.

Lemma db_update_ids db row :
  ch_id <$> db_update db row = ch_id <$> db.
Proof.
  unfold db_update. rewrite <- list_fmap_compose. apply list_fmap_ext.
  intros i ch _. simpl. destruct (ch_id ch =? ch_id row)%Z eqn:E; [|done].
  by apply Z.eqb_eq in E.
Qed.

Lemma next_id_fresh db : next_id db ∉ ch_id <$> db.
Proof.
  unfold next_id.
  assert (H : forall z, z ∈ ch_id <$> db -> (z <= foldr Z.max 0 (ch_id <$> db))%Z).
  { induction (ch_id <$> db) as [|x l IH]; intros z Hz.
    - by apply elem_of_nil in Hz.
    - simpl. apply elem_of_cons in Hz as [->|Hz]; [lia|].
      specialize (IH z Hz). lia. }
  intros Hin. specialize (H _ Hin). lia.
Qed.

(** The table keeps its primary keys distinct. A merge rewrites the row
    of the matched hotspot only: the table keeps its length and every other
    row. A creation appends exactly one row, under a key that was not in
    use. *)
Theorem update_or_create_table db cluster_points db' out :
  NoDup (ch_id <$> db) ->
  update_or_create db cluster_points = Ok (db', out) ->
  NoDup (ch_id <$> db')
  /\ match find_existing db (centroid cluster_points) with
     | Some existing =>
         length db' = length db
         /\ forall ch, ch ∈ db -> ch_id ch <> ch_id existing -> ch ∈ db'
     | None =>
         exists row, db' = db ++ [row] /\ (ch_id row ∉ ch_id <$> db)
                     /\ out = to_hotspot_data row
     end.
Proof.
  intros Hnd Hu.
  destruct (find_existing db (centroid cluster_points)) as [existing|] eqn:Hf.
  - destruct (update_merge_inv _ _ _ _ _ _ _ Hf Hu) as (row & Hm & -> & _ & _).
    pose proof (merged_values_fields _ _ _ _ Hm) as (Hid & _).
    split_and!.
    + by rewrite db_update_ids.
    + unfold db_update. by rewrite length_fmap.
    + intros ch Hch Hne. unfold db_update. apply list_elem_of_fmap.
      exists ch. split; [|done].
      destruct (ch_id ch =? ch_id row)%Z eqn:E; [|done].
      apply Z.eqb_eq in E. congruence.
  - unfold Detecter.update_or_create_composite_hotspot in Hu. rewrite Hf in Hu.
    destruct (created_values_ok (next_id db) cluster_points
                (centroid cluster_points)) as (row & Hrow & Hid & _).
    rewrite Hrow in Hu. cbn [bind] in Hu. injection Hu as <- <-.
    split.
    + rewrite fmap_app. apply NoDup_app. split_and!; [done| |apply NoDup_singleton].
      intros z Hz ->%list_elem_of_singleton. simpl in Hz. rewrite Hid in Hz.
      by apply next_id_fresh in Hz.
    + exists row. split_and!; try done. rewrite Hid. apply next_id_fresh.
Qed.

End Table.

(** *** GeoCoder: cache and rate limit *)

Section GeoCoderMore.
Variable requests_get : string -> Q -> http_outcome.
Variable py_float : string -> option Q.

Abbreviation geocode_uncached := (Detecter.geocode_uncached requests_get py_float).
Abbreviation geocode := (Detecter.geocode requests_get py_float).

Lemma geocode_uncached_cache location st :
  cache (geocode_uncached location st).2 = cache st.
Proof.
  unfold Detecter.geocode_uncached. destruct (blank location); [done|].
  simpl. destruct (fetch _ _ _ _); simpl;
    by destruct (Qltb (clock st - last_call_time st) 1).
Qed.

Lemma cache_find_head location v c :
  cache_find location ((location, v) :: c) = Some v.
Proof. simpl. by rewrite String.eqb_refl. Qed.

Lemma geocode_result_cached location st :
  exists v, (geocode location st).1 = Ok v
            /\ cache_find location (cache (geocode location st).2) = Some v.
Proof.
  unfold Detecter.geocode.
  destruct (cache_find location (cache st)) as [v|] eqn:E.
  - exists v. simpl. by rewrite String.eqb_refl.
  - pose proof (geocode_uncached_no_raise requests_get py_float location st) as Hn.
    destruct (geocode_uncached location st) as [[v|e] st'] eqn:Eu.
    + exists v. simpl. by rewrite String.eqb_refl.
    + by destruct (Hn e).
Qed.

(** Memoization: calling [geocode] again with the same location returns
    the same result from the cache, without sleeping, sending a request or
    touching the clock, the last call time or the counters. *)
Theorem geocode_memoized location st :
  exists v,
    (geocode location st).1 = Ok v
    /\ (geocode location (geocode location st).2).1 = Ok v
    /\ budget (geocode location (geocode location st).2).2
       = budget (geocode location st).2.
Proof.
  destruct (geocode_result_cached location st) as (v & Hv & Hc).
  exists v. split; [done|].
  set (st1 := (geocode location st).2) in *.
  unfold Detecter.geocode. rewrite Hc. done.
Qed.

Lemma cache_remove_shorter location c v :
  cache_find location c = Some v ->
  S (length (cache_remove location c)) <= length c.
Proof.
  unfold cache_remove. induction c as [|[k w] c IH]; simpl; [done|].
  rewrite filter_cons. simpl. destruct (String.eqb location k) eqn:E; simpl.
  - intros _. pose proof (length_filter (fun e => negb (String.eqb location e.1)) c).
    lia.
  - intros H. specialize (IH H). lia.
Qed.

(** The cache never grows beyond its capacity of 1000 entries: a hit
    reorders it, a miss adds one entry and drops what exceeds the capacity. *)
Theorem geocode_cache_bounded location st :
  length (cache st) <= maxsize ->
  length (cache (geocode location st).2) <= maxsize.
Proof.
  intros Hlen. unfold Detecter.geocode.
  destruct (cache_find location (cache st)) as [v|] eqn:E.
  - simpl. pose proof (cache_remove_shorter _ _ _ E). lia.
  - pose proof (geocode_uncached_no_raise requests_get py_float location st) as Hn.
    destruct (geocode_uncached location st) as [[v|e] st'] eqn:Eu.
    + cbn [snd set_cache cache]. rewrite length_take. lia.
    + by destruct (Hn e).
Qed.

(** Rate limit: for a location that is not blank, the uncached call
    sends exactly one request, at a clock value at least one second after
    the recorded last call time, sleeping for the missing time when needed.
    The last call time it records is the clock value read before any
    sleep. *)
Theorem geocode_uncached_spacing location st :
  blank location = false ->
  let st' := (geocode_uncached location st).2 in
  sent st' = sent st ++ [location]
  /\ GEOCODING_REQUESTS st' = S (GEOCODING_REQUESTS st)
  /\ last_call_time st' = clock st
  /\ (last_call_time st + 1 <= clock st')%Q
  /\ (clock st <= clock st')%Q
  /\ ((1 <= clock st - last_call_time st)%Q ->
      sleeps st' = sleeps st /\ clock st' = clock st)
  /\ ((clock st - last_call_time st < 1)%Q ->
      sleeps st' = sleeps st ++ [1 - (clock st - last_call_time st)]%Q
      /\ (clock st' == last_call_time st + 1)%Q).
Proof.
  intros Hb st'. subst st'. unfold Detecter.geocode_uncached. rewrite Hb.
  cbn [snd].
  assert (Hgoal :
    let st1 := if Qltb (clock st - last_call_time st) 1
               then sleep (1 - (clock st - last_call_time st)) st else st in
    (last_call_time st + 1 <= clock st1)%Q
    /\ (clock st <= clock st1)%Q
    /\ ((1 <= clock st - last_call_time st)%Q ->
        sleeps st1 = sleeps st /\ clock st1 = clock st)
    /\ ((clock st - last_call_time st < 1)%Q ->
        sleeps st1 = sleeps st ++ [1 - (clock st - last_call_time st)]%Q
        /\ (clock st1 == last_call_time st + 1)%Q)).
  { cbv zeta. destruct (Qltb (clock st - last_call_time st) 1) eqn:E.
    - apply Qltb_lt in E. cbn [sleep clock sleeps]. split_and!.
      + lra.
      + lra.
      + intros H. lra.
      + intros _. split; [done|lra].
    - apply Qltb_ge in E. split_and!.
      + lra.
      + lra.
      + done.
      + intros H. lra. }
  cbv zeta in Hgoal. destruct Hgoal as (H1 & H2 & H3 & H4).
  destruct (fetch _ _ _ _); cbn [sent GEOCODING_REQUESTS last_call_time clock sleeps];
    split_and!; try done;
    by destruct (Qltb (clock st - last_call_time st) 1).
Qed.

End GeoCoderMore.

(** *** Severity levels *)

Lemma severity_scale_keys (level : string) :
  severity_scale (Some level)
  = if String.eqb level "critical" then Some 4%Q
    else if String.eqb level "high" then Some 3%Q
    else if String.eqb level "medium" then Some 2%Q
    else if String.eqb level "low" then Some 1%Q
    else None.
Proof.
  unfold severity_scale.
  repeat match goal with
         | |- context [match ?x with _ => _ end] =>
             is_var x; destruct x; try reflexivity
         end.
Qed.

(** The reverse mapping undoes the scale on its four keys; every other
    level (for instance "very_high") has rank 1 and comes back as "low". *)
Theorem rev_severity_round_trip (level : string) :
  rev_severity (severity_rank level)
  = if String.eqb level "critical" || String.eqb level "high"
       || String.eqb level "medium"
    then level else "low".
Proof.
  unfold severity_rank, severity_value. rewrite severity_scale_keys.
  destruct (String.eqb level "critical") eqn:E1.
  { apply String.eqb_eq in E1 as ->. reflexivity. }
  destruct (String.eqb level "high") eqn:E2.
  { apply String.eqb_eq in E2 as ->. reflexivity. }
  destruct (String.eqb level "medium") eqn:E3.
  { apply String.eqb_eq in E3 as ->. reflexivity. }
  by destruct (String.eqb level "low").
Qed.

(** *** Spatial clustering: partition and chains *)

Lemma concat_group_append l p cs :
  concat (group_append l p cs).*2 ≡ₚ concat cs.*2 ++ [p].
Proof.
  induction cs as [|[l0 g0] cs IH]; [done|].
  cbn [group_append]. destruct (l0 =? l)%Z.
  - rewrite !fmap_cons. cbn [snd concat]. rewrite <- !(assoc_L (++)).
    f_equiv. apply Permutation_app_comm.
  - rewrite !fmap_cons. cbn [snd concat]. rewrite IH.
    by rewrite (assoc_L (++)).
Qed.

Lemma concat_group_by_label labelled :
  concat (group_by_label labelled).*2 ≡ₚ labelled.*2.
Proof.
  induction labelled as [|[l p] labelled IH] using rev_ind; [done|].
  rewrite group_by_label_snoc, concat_group_append, IH.
  by rewrite fmap_app.
Qed.

Section SpatialMore.
Variable radians : Q -> Q.
Variable central_angle : Q * Q -> Q * Q -> Q.
Hypothesis central_angle_self : forall a, (central_angle a a == 0)%Q.
Hypothesis central_angle_sym :
  forall a b, (central_angle a b == central_angle b a)%Q.

Abbreviation cluster_points := (Detecter.cluster_points radians central_angle).

(** Points [i] and [j] of the list are at most 5 km apart. *)
Definition linked (points : list GeoPoint) (i j : nat) : Prop :=
  exists p q, points !! i = Some p /\ points !! j = Some q
              /\ within_5km radians central_angle p q.

Lemma cluster_points_labels (points : list GeoPoint) :
  exists labels,
    cluster_points points = Some (group_by_label (zip labels points))
    /\ length labels = length points
    /\ (forall i, i < length points ->
          exists l, labels !! i = Some l /\ (0 <= l)%Z)
    /\ (forall i j, i < length points -> j < length points ->
          (labels !! i = labels !! j <-> rtc (linked points) i j)).
Proof.
  destruct points as [|p0 ps] eqn:Ep.
  { exists []. simpl. split_and!; try done; intros; lia. }
  rewrite <- Ep. set (X := radians_coords radians points).
  destruct (dbscan_labels_components central_angle (5 / 6371)) with (X := X)
    as (labels & Hd & Hlen & Hlab & Hcomp).
  { intros x. apply Qleb_le. rewrite central_angle_self. done. }
  { intros x y. destruct (Qleb (central_angle y x) (5 / 6371)) eqn:E.
    - apply Qleb_le. apply Qleb_le in E. by rewrite central_angle_sym.
    - destruct (Qleb (central_angle x y) (5 / 6371)) eqn:E'; [|done].
      apply Qleb_le in E'. rewrite central_angle_sym in E'.
      apply Qleb_le in E'. congruence. }
  assert (HX : length X = length points).
  { unfold X, radians_coords. by rewrite length_fmap. }
  rewrite HX in Hlen, Hlab, Hcomp.
  exists labels. split_and!; try done.
  - unfold Detecter.cluster_points. rewrite Ep at 1. fold X. by rewrite Hd.
  - intros i j Hi Hj. rewrite (Hcomp i j Hi Hj). split.
    + apply rtc_subrel. intros a b. apply close_within.
    + apply rtc_subrel. intros a b. apply close_within.
Qed.

(** [cluster_points] always returns, and its groups partition the
    points: together they hold every point exactly as often as the input
    does, each group lists its points in arrival order, no group is empty
    and no label is used for two groups. *)
Theorem cluster_points_partition (points : list GeoPoint) :
  exists groups,
    cluster_points points = Some groups
    /\ concat groups.*2 ≡ₚ points
    /\ Forall (fun g => g `sublist_of` points /\ g <> []) groups.*2
    /\ NoDup groups.*1.
Proof.
  destruct (cluster_points_labels points) as (labels & Hc & Hlen & _).
  exists (group_by_label (zip labels points)).
  destruct (group_by_label_spec (zip labels points)) as (Hnd & Hmem & _).
  assert (Hsnd : (zip labels points).*2 = points).
  { apply snd_zip. lia. }
  split_and!; try done.
  - by rewrite concat_group_by_label, Hsnd.
  - apply Forall_fmap. apply Forall_forall. intros [l g] Hg. simpl.
    destruct (Hmem l g Hg) as [-> Hne]. split; [|done].
    rewrite <- Hsnd at 2. unfold members. apply fmap_sublist.
    apply sublist_filter.
Qed.

(** Single linkage: every point sits in the group of its label, labels
    are never -1, and two points get the same label exactly when a chain of
    points, each at most 5 km from the next, leads from one to the other. *)
Theorem cluster_points_chain (points : list GeoPoint) :
  exists labels groups,
    cluster_points points = Some groups
    /\ length labels = length points
    /\ (forall i p, points !! i = Some p ->
          exists l g, labels !! i = Some l /\ (0 <= l)%Z
                      /\ (l, g) ∈ groups
                      /\ g = members l (zip labels points) /\ p ∈ g)
    /\ (forall i j, i < length points -> j < length points ->
          (labels !! i = labels !! j <-> rtc (linked points) i j)).
Proof.
  destruct (cluster_points_labels points) as (labels & Hc & Hlen & Hlab & Hcomp).
  exists labels, (group_by_label (zip labels points)).
  destruct (group_by_label_spec (zip labels points)) as (Hnd & Hmem & Hkeys).
  split_and!; try done.
  intros i p Hp.
  destruct (Hlab i) as (l & Hl & Hl0); [by eapply lookup_lt_Some|].
  assert (Hin : (l, p) ∈ zip labels points).
  { apply list_elem_of_lookup. exists i. by apply lookup_zip_Some. }
  pose proof (Hkeys _ Hin) as Hk. simpl in Hk.
  apply list_elem_of_fmap in Hk as ([l' g] & -> & Hg). simpl in *.
  exists l', g. destruct (Hmem _ _ Hg) as [-> _]. split_and!; try done.
  unfold members. apply list_elem_of_fmap. exists (l', p). split; [done|].
  by apply list_elem_of_filter.
Qed.

End SpatialMore.

(** *** Assembling the points *)

Section AssembleMore.
Variable requests_get : string -> Q -> http_outcome.
Variable py_float : string -> option Q.

Abbreviation gather := (Detecter.gather requests_get py_float).
Abbreviation assemble_unified_points :=
  (Detecter.assemble_unified_points requests_get py_float).

Lemma gather_sublist tasks st :
  (fun p => (p_type p, p_payload p)) <$> (gather tasks st).1 `sublist_of` tasks
  /\ Forall (fun p => p_confidence p
                      = confidence_or_one (hs_confidence (p_payload p)))
            (gather tasks st).1.
Proof.
  revert st. induction tasks as [|[ty h] tasks IH]; intros st; simpl.
  - split; constructor.
  - destruct (_process_hotspot requests_get py_float ty h st) as [r st'] eqn:E.
    specialize (IH st'). destruct (gather tasks st') as [points st''] eqn:G.
    simpl in *. destruct IH as [IH1 IH2].
    destruct r as [[p|]|e]; simpl.
    + assert (Hp : p_type p = ty /\ p_payload p = h
                     /\ p_confidence p = confidence_or_one (hs_confidence h)).
      { unfold _process_hotspot in E.
        destruct (geocode _ _ _ _) as [[[coords|]|e] st1]; [|done..].
        by injection E as <- <-. }
      destruct Hp as (Hty & Hpay & Hc). rewrite Hpay, Hty. split.
      * by apply sublist_skip.
      * constructor; [by rewrite Hc, Hpay|done].
    + split; [by apply sublist_cons|done].
    + split; [by apply sublist_cons|done].
Qed.

(** The points assembled are the geocoded hotspots, each with its own
    record as payload and the tag of the list it came from, human hotspots
    first, in input order; a hotspot gives at most one point. *)
Theorem assemble_points_from_inputs (humans disasters : list Hotspot) st :
  let points := (assemble_unified_points humans disasters st).1 in
  (fun p => (p_type p, p_payload p)) <$> points
    `sublist_of` ((fun h => ("human", h)) <$> humans)
                 ++ ((fun d => ("disaster", d)) <$> disasters)
  /\ length points <= length humans + length disasters
  /\ Forall (fun p => p_confidence p
                      = confidence_or_one (hs_confidence (p_payload p)))
            points.
Proof.
  intros points. subst points. unfold Detecter.assemble_unified_points.
  destruct (gather_sublist
              (((fun h => ("human", h)) <$> humans)
               ++ ((fun d => ("disaster", d)) <$> disasters)) st) as [H1 H2].
  split_and!; [done| |done].
  apply sublist_length in H1.
  rewrite length_fmap, length_app, !length_fmap in H1. done.
Qed.

End AssembleMore.

(** *** Centroid and the fields of a row *)

Lemma foldl_Qplus_shift a l : (foldl Qplus a l == a + foldl Qplus 0 l)%Q.
Proof.
  revert a. induction l as [|x l IH]; intros a; simpl.
  - ring.
  - rewrite (IH (a + x)%Q), (IH (0 + x)%Q). ring.
Qed.

Lemma sumQ_scaled (f c : GeoPoint -> Q) k (points : list GeoPoint) :
  Forall (fun p => (f p == k)%Q) points ->
  (sumQ ((fun p => f p * c p)%Q <$> points) == k * sumQ (c <$> points))%Q.
Proof.
  unfold sumQ. induction 1 as [|p ps Hp _ IH].
  - rewrite !fmap_nil. cbn [foldl]. ring.
  - rewrite !fmap_cons. cbn [foldl].
    rewrite foldl_Qplus_shift, IH, (foldl_Qplus_shift (0 + c p)%Q), Hp. ring.
Qed.

(** The centroid of points that share their coordinates is that place,
    as long as the confidences do not add up to 0. *)
Theorem centroid_colocated (cluster_points : list GeoPoint) (lat lon : Q) :
  ~ (sumQ (p_confidence <$> cluster_points) == 0)%Q ->
  Forall (fun p => (p_latitude p == lat)%Q) cluster_points ->
  Forall (fun p => (p_longitude p == lon)%Q) cluster_points ->
  ((centroid cluster_points).1 == lat)%Q
  /\ ((centroid cluster_points).2 == lon)%Q.
Proof.
  intros Hsum Hlat Hlon. unfold centroid, total_confidence. simpl.
  destruct (Qeqb (sumQ (p_confidence <$> cluster_points)) 0) eqn:E.
  { by apply Qeqb_eq in E. }
  rewrite (sumQ_scaled p_latitude p_confidence lat) by done.
  rewrite (sumQ_scaled p_longitude p_confidence lon) by done.
  split; by apply Qdiv_mult_l.
Qed.

(** *** The rows written *)

Section Rows.
Variable radians : Q -> Q.
Variable central_angle : Q * Q -> Q * Q -> Q.

Abbreviation find_existing := (Detecter.find_existing radians central_angle).
Abbreviation update_or_create :=
  (Detecter.update_or_create_composite_hotspot radians central_angle).

(** The event type a point adds: disaster points with a non-empty one. *)
Definition point_event_type (p : GeoPoint) : option string :=
  if String.eqb (p_type p) "human" then None
  else if String.eqb (p_type p) "disaster"
       then match getattr (hs_event_type (p_payload p)) None with
            | Some e => if PyStr.truthy (Some e) then Some e else None
            | None => None
            end
       else None.

Lemma foldl_aggregate_event_types a ps :
  event_types_set (foldl aggregate_point a ps)
  = event_types_set a ∪ list_to_set (omap point_event_type ps).
Proof.
  revert a. induction ps as [|p ps IH]; intros a; simpl.
  - by rewrite (right_id_L ∅ (∪)).
  - rewrite IH. unfold aggregate_point, point_event_type, add_event_type.
    destruct (String.eqb (p_type p) "human"); simpl; [done|].
    destruct (String.eqb (p_type p) "disaster"); simpl; [|done].
    destruct (getattr (hs_event_type (p_payload p)) None) as [e|]; [|done].
    destruct e as [|c e]; simpl; [done|]. by rewrite (assoc_L (∪)).
Qed.

Lemma aggregate_event_types cluster_points :
  event_types_set (aggregate cluster_points)
  = list_to_set (omap point_event_type cluster_points).
Proof.
  unfold aggregate. rewrite foldl_aggregate_event_types. simpl.
  by rewrite (left_id_L ∅ (∪)).
Qed.

(** After a merge the hotspot's event types are the union of the ones it
    had and the non-empty event types of the group's disaster points, each
    listed once. *)
Theorem merge_event_types db cluster_points existing db' out :
  find_existing db (centroid cluster_points) = Some existing ->
  update_or_create db cluster_points = Ok (db', out) ->
  exists types,
    out_event_types out = Some types
    /\ NoDup types
    /\ (forall e, e ∈ types <->
          e ∈ default [] (ch_event_types existing)
          \/ exists p, p ∈ cluster_points /\ point_event_type p = Some e).
Proof.
  intros Hf Hu.
  destruct (update_merge_inv _ _ _ _ _ _ _ Hf Hu) as (row & Hm & -> & _ & ->).
  unfold merged_values in Hm.
  bind_inv Hm. bind_inv Hm. bind_inv Hm. bind_inv Hm. bind_inv Hm.
  injection Hm as <-. simpl.
  eexists. split; [done|]. split; [apply NoDup_elements|].
  intros e. rewrite elem_of_elements, elem_of_union, elem_of_list_to_set.
  rewrite aggregate_event_types, elem_of_list_to_set, list_elem_of_omap.
  done.
Qed.

Lemma created_values_fields id cluster_points a avg row :
  created_values id cluster_points a avg = Ok row ->
  ch_severity_level row
  = rev_severity match severity_vals a with
                 | [] => 1%Q
                 | v :: vs => maxQ v vs
                 end
  /\ (risk_counts a = [] -> ch_risk_level row = "unknown")
  /\ ch_event_types row = Some (elements (event_types_set a))
  /\ (panic_scores a = [] -> ch_average_panic_level row = Some 0%Q)
  /\ ch_latitude row = avg.1 /\ ch_longitude row = avg.2.
Proof.
  unfold created_values. intros H. bind_inv H. bind_inv H. bind_inv H.
  injection H as <-. simpl. split_and!; try done.
  - intros E. rewrite E in Hx1. by injection Hx1 as <-.
  - intros E. rewrite E in Hx0. by injection Hx0 as <-.
Qed.

Lemma omap_all_None {A B} (f : A -> option B) (l : list A) :
  Forall (fun x => f x = None) l -> omap f l = [].
Proof. induction 1 as [|x l Hx _ IH]; simpl; [done|]. by rewrite Hx. Qed.

(** A new hotspot founded by a group without disaster points gets the
    defaults: severity "low", risk "unknown", no event types; it sits at
    the group's centroid. *)
Theorem create_without_disaster_points db cluster_points :
  find_existing db (centroid cluster_points) = None ->
  Forall (fun p => p_type p <> "disaster") cluster_points ->
  exists row,
    update_or_create db cluster_points
    = Ok (db ++ [row], to_hotspot_data row)
    /\ ch_severity_level row = "low"
    /\ ch_risk_level row = "unknown"
    /\ ch_event_types row = Some []
    /\ (ch_latitude row, ch_longitude row) = centroid cluster_points.
Proof.
  intros Hf Hty. unfold Detecter.update_or_create_composite_hotspot. rewrite Hf.
  destruct (created_values_ok (next_id db) cluster_points
              (centroid cluster_points)) as (row & Hrow & _).
  rewrite Hrow. cbn [bind]. exists row. split; [done|].
  apply created_values_fields in Hrow as (Hs & Hr & He & _ & Hlat & Hlon).
  assert (Hnot : forall p, p_type p <> "disaster" ->
            (if String.eqb (p_type p) "human" then true
             else negb (String.eqb (p_type p) "disaster")) = true).
  { intros p Hp. destruct (String.eqb (p_type p) "human"); [done|].
    destruct (String.eqb (p_type p) "disaster") eqn:E; [|done].
    by apply String.eqb_eq in E. }
  rewrite aggregate_severity_vals, omap_all_None in Hs.
  2:{ eapply Forall_impl; [exact Hty|]. intros p Hp%Hnot.
      unfold point_severity_val. destruct (String.eqb (p_type p) "human"); [done|].
      by destruct (String.eqb (p_type p) "disaster"). }
  rewrite aggregate_event_types, omap_all_None in He.
  2:{ eapply Forall_impl; [exact Hty|]. intros p Hp%Hnot.
      unfold point_event_type. destruct (String.eqb (p_type p) "human"); [done|].
      by destruct (String.eqb (p_type p) "disaster"). }
  split_and!; [done| |done|].
  - apply Hr. unfold aggregate. rewrite foldl_aggregate_risk_counts.
    rewrite omap_all_None; [done|].
    eapply Forall_impl; [exact Hty|]. intros p Hp%Hnot.
    unfold point_risk_level. destruct (String.eqb (p_type p) "human"); [done|].
    by destruct (String.eqb (p_type p) "disaster").
  - rewrite Hlat, Hlon. by destruct (centroid cluster_points).
Qed.

Lemma update_or_create_keys db cluster_points db' out :
  update_or_create db cluster_points = Ok (db', out) ->
  NoDup (ch_id <$> db) ->
  NoDup (ch_id <$> db')
  /\ (forall z, z ∈ ch_id <$> db -> z ∈ ch_id <$> db')
  /\ length db <= length db' <= length db + 1.
Proof.
  intros Hu Hnd.
  destruct (find_existing db (centroid cluster_points)) as [existing|] eqn:Hf.
  - destruct (update_merge_inv _ _ _ _ _ _ _ Hf Hu) as (row & Hm & -> & _ & _).
    rewrite db_update_ids. split_and!; try done.
    + unfold db_update. rewrite length_fmap. lia.
    + unfold db_update. rewrite length_fmap. lia.
  - unfold Detecter.update_or_create_composite_hotspot in Hu. rewrite Hf in Hu.
    destruct (created_values_ok (next_id db) cluster_points
                (centroid cluster_points)) as (row & Hrow & Hid & _).
    rewrite Hrow in Hu. cbn [bind] in Hu. injection Hu as <- <-.
    rewrite fmap_app, length_app. simpl. split_and!; try lia.
    + apply NoDup_app. split_and!; [done| |apply NoDup_singleton].
      intros z Hz ->%list_elem_of_singleton. rewrite Hid in Hz.
      by apply next_id_fresh in Hz.
    + intros z Hz. apply elem_of_app. by left.
Qed.

Abbreviation process_groups := (Detecter.process_groups radians central_angle).

(** The loop over the groups always runs to its end: a group that fails
    is skipped. It emits at most one output per group, keeps the primary
    keys distinct, never removes a key and adds at most one row per group. *)
Theorem process_groups_table clusters db :
  NoDup (ch_id <$> db) ->
  let '(output_list, db') := process_groups db clusters in
  length output_list <= length clusters
  /\ NoDup (ch_id <$> db')
  /\ (forall z, z ∈ ch_id <$> db -> z ∈ ch_id <$> db')
  /\ length db <= length db' <= length db + length clusters.
Proof.
  revert db. induction clusters as [|[l g] clusters IH]; intros db Hnd; simpl.
  - split_and!; try done; lia.
  - destruct (update_or_create db g) as [[db1 data]|e] eqn:Hu.
    + destruct (update_or_create_keys _ _ _ _ Hu Hnd) as (Hnd1 & Hsub1 & Hlen1).
      specialize (IH db1 Hnd1).
      destruct (process_groups db1 clusters) as [outs db2].
      destruct IH as (Ho & Hnd2 & Hsub2 & Hlen2).
      split_and!; try done.
      * destruct (validate_output data); simpl; lia.
      * intros z Hz. by apply Hsub2, Hsub1.
      * lia.
      * lia.
    + specialize (IH db Hnd).
      destruct (process_groups db clusters) as [outs db2].
      destruct IH as (Ho & Hnd2 & Hsub2 & Hlen2).
      split_and!; try done; lia.
Qed.

End Rows.

(** *** The whole pass *)

Section PipelineMore.
Variable requests_get : string -> Q -> http_outcome.
Variable py_float : string -> option Q.
Variable radians : Q -> Q.
Variable central_angle : Q * Q -> Q * Q -> Q.
Hypothesis central_angle_self : forall a, (central_angle a a == 0)%Q.
Hypothesis central_angle_sym :
  forall a b, (central_angle a b == central_angle b a)%Q.

Abbreviation generate_map :=
  (generate_map_json_with_persistence requests_get py_float radians central_angle).

Abbreviation geocode := (Detecter.geocode requests_get py_float).

(** The records that geocode: the geocoder is asked for each record's
    location in turn, from the state the previous call left; a record counts
    when the answer is a pair of coordinates. *)
Fixpoint geocoded_sources (records : list Hotspot) (st : GeoState)
  : list Hotspot :=
  match records with
  | [] => []
  | h :: rest =>
      match geocode (location_or_empty (hs_location h)) st with
      | (Ok (Some _), st') => h :: geocoded_sources rest st'
      | (_, st') => geocoded_sources rest st'
      end
  end.

Lemma gather_payloads tasks st :
  p_payload <$> (Detecter.gather requests_get py_float tasks st).1
  = geocoded_sources tasks.*2 st.
Proof.
  revert st. induction tasks as [|[ty h] tasks IH]; intros st; [done|].
  rewrite fmap_cons. cbn [Detecter.gather geocoded_sources snd].
  unfold _process_hotspot.
  destruct (geocode (location_or_empty (hs_location h)) st)
    as [[[coords|]|e] st1]; specialize (IH st1);
    destruct (Detecter.gather requests_get py_float tasks st1) as [points st2];
    cbn [fst] in *; rewrite <- IH; reflexivity.
Qed.

Lemma geocoded_sources_sublist records st :
  geocoded_sources records st `sublist_of` records.
Proof.
  revert st. induction records as [|h rest IH]; intros st; simpl; [done|].
  destruct (geocode (location_or_empty (hs_location h)) st)
    as [[[coords|]|e] st1].
  - by apply sublist_skip.
  - by apply sublist_cons.
  - by apply sublist_cons.
Qed.

(** A record among the geocoded ones got coordinates from some call. *)
Lemma geocoded_sources_answered records st h :
  h ∈ geocoded_sources records st ->
  exists s coords,
    (geocode (location_or_empty (hs_location h)) s).1 = Ok (Some coords).
Proof.
  revert st. induction records as [|h0 rest IH]; intros st; simpl.
  - by intros H%elem_of_nil.
  - destruct (geocode (location_or_empty (hs_location h0)) st)
      as [[[coords|]|e] st1] eqn:E; [|by apply IH..].
    intros [->|H]%elem_of_cons; [|by eapply IH].
    exists st, coords. by rewrite E.
Qed.

(** A record whose location gets coordinates whenever it is asked for is
    among the geocoded ones. *)
Lemma geocoded_sources_complete records st h :
  h ∈ records ->
  (forall s, exists coords,
      (geocode (location_or_empty (hs_location h)) s).1 = Ok (Some coords)) ->
  h ∈ geocoded_sources records st.
Proof.
  intros Hin Hall. revert st.
  induction records as [|h0 rest IH]; intros st; [by apply elem_of_nil in Hin|].
  simpl. apply elem_of_cons in Hin as [<-|Hin].
  - destruct (Hall st) as [coords Hc].
    destruct (geocode (location_or_empty (hs_location h)) st)
      as [[[c|]|e] st1]; simpl in Hc; try discriminate Hc. by left.
  - destruct (geocode (location_or_empty (hs_location h0)) st)
      as [[[c|]|e] st1]; [right|..]; by apply IH.
Qed.

(** A pass always ends. The source records it marks "aggregated" are
    exactly the pending records that geocoded, human records first, in
    table order, whether or not their group could be written: they are the
    payloads of the points that were clustered. A pending record is marked
    only if some call for its location returned coordinates, so a record
    whose location never resolves is left as it was; a record whose
    location always resolves is marked. When no record geocodes the pass
    returns no output, writes nothing and marks nothing. *)
Theorem generate_map_marks (human_table disaster_table : list Hotspot)
  (st : GeoState) (db : list CompositeHotspot) :
  let pending_records :=
    filter (fun h => is_pending h = true) human_table
    ++ filter (fun d => is_pending d = true) disaster_table in
  let sources := geocoded_sources pending_records st in
  exists output_list db' st',
    generate_map human_table disaster_table st db
    = Some (output_list, db', st', set_status aggregated <$> sources)
    /\ sources `sublist_of` pending_records
    /\ Forall (fun h => hs_status h = pending) sources
    /\ Forall (fun h => hs_status h = aggregated)
              (set_status aggregated <$> sources)
    /\ (forall h, h ∈ sources ->
          exists s coords,
            (geocode (location_or_empty (hs_location h)) s).1
            = Ok (Some coords))
    /\ (forall h, h ∈ pending_records ->
          (forall s, (geocode (location_or_empty (hs_location h)) s).1 = Ok None) ->
          h ∉ sources)
    /\ (forall h, h ∈ pending_records ->
          (forall s, exists coords,
              (geocode (location_or_empty (hs_location h)) s).1
              = Ok (Some coords)) ->
          h ∈ sources)
    /\ (sources = [] -> output_list = [] /\ db' = db)
    /\ (sources <> [] ->
        exists points clusters,
          p_payload <$> points = sources
          /\ Detecter.cluster_points radians central_angle points = Some clusters
          /\ Detecter.process_groups radians central_angle db clusters
             = (output_list, db')).
Proof.
  intros pending_records sources.
  unfold generate_map_json_with_persistence.
  set (humans := filter (fun h => is_pending h = true) human_table) in *.
  set (disasters := filter (fun d => is_pending d = true) disaster_table) in *.
  unfold Detecter.assemble_unified_points.
  set (tasks := ((fun h => ("human", h)) <$> humans)
                ++ ((fun d => ("disaster", d)) <$> disasters)).
  assert (Htasks : tasks.*2 = pending_records).
  { unfold tasks, pending_records. rewrite fmap_app, <- !list_fmap_compose.
    by rewrite !list_fmap_id. }
  destruct (gather_sublist requests_get py_float tasks st) as [Hsub _].
  pose proof (gather_payloads tasks st) as Hpay.
  rewrite Htasks in Hpay. fold sources in Hpay.
  destruct (Detecter.gather requests_get py_float tasks st) as [points st'].
  cbn [fst] in Hsub, Hpay.
  assert (Hsrc : sources `sublist_of` pending_records)
    by apply geocoded_sources_sublist.
  assert (Hpend : Forall (fun h => hs_status h = pending) sources).
  { apply Forall_forall. intros h Hh.
    assert (Hin : h ∈ pending_records) by (by eapply elem_of_sublist).
    assert (Hp : is_pending h = true).
    { unfold pending_records in Hin. apply elem_of_app in Hin as [Hin|Hin];
        by apply list_elem_of_filter in Hin as [Hin _]. }
    unfold is_pending in Hp. by destruct (hs_status h). }
  assert (Hmark : mark_aggregated points = set_status aggregated <$> sources).
  { rewrite <- Hpay. unfold mark_aggregated. rewrite <- list_fmap_compose.
    apply list_fmap_ext. intros i p Hp. simpl.
    assert (Hin : (p_type p, p_payload p) ∈ tasks).
    { eapply elem_of_sublist; [|exact Hsub].
      apply list_elem_of_fmap. exists p. split; [done|].
      by eapply list_elem_of_lookup_2. }
    unfold tasks in Hin.
    apply elem_of_app in Hin as [Hin|Hin];
      apply list_elem_of_fmap in Hin as (h & [= -> _] & _); done. }
  assert (Hshared :
    Forall (fun h => hs_status h = aggregated) (set_status aggregated <$> sources)
    /\ (forall h, h ∈ sources ->
          exists s coords,
            (geocode (location_or_empty (hs_location h)) s).1
            = Ok (Some coords))
    /\ (forall h, h ∈ pending_records ->
          (forall s, (geocode (location_or_empty (hs_location h)) s).1 = Ok None) ->
          h ∉ sources)
    /\ (forall h, h ∈ pending_records ->
          (forall s, exists coords,
              (geocode (location_or_empty (hs_location h)) s).1
              = Ok (Some coords)) ->
          h ∈ sources)).
  { split_and!.
    - apply Forall_fmap. by apply Forall_true.
    - intros h Hh. by eapply geocoded_sources_answered.
    - intros h _ Hnone Hh.
      destruct (geocoded_sources_answered _ _ _ Hh) as (s & coords & Hs).
      rewrite Hnone in Hs. discriminate Hs.
    - intros h Hh Hall. by apply geocoded_sources_complete. }
  destruct Hshared as (Hagg & Hans & Hnever & Halways).
  destruct points as [|p0 ps] eqn:Ep.
  { exists [], db, st'. rewrite <- Hpay. simpl.
    split_and!; try done.
    - rewrite <- Hpay in Hsrc. exact Hsrc.
    - intros h Hh. rewrite <- Hpay in Hans. by apply Hans.
    - intros h Hh Hn. rewrite <- Hpay in Hnever. by apply Hnever.
    - intros h Hh Ha. rewrite <- Hpay in Halways. by apply Halways. }
  rewrite <- Ep in *.
  destruct (cluster_points_labels radians central_angle central_angle_self
              central_angle_sym points) as (labels & Hc & _).
  rewrite Hc. simpl.
  destruct (Detecter.process_groups radians central_angle db
              (group_by_label (zip labels points))) as [outs db'] eqn:Hpg.
  exists outs, db', st'. rewrite Hmark.
  split_and!; try done.
  - intros Hnil. rewrite <- Hpay, Ep in Hnil. discriminate Hnil.
  - intros _. exists points, (group_by_label (zip labels points)).
    split_and!; done.
Qed.

End PipelineMore.

(** *** Concrete runs *)

Import DetecterExamples.

Definition empty_hotspot : CompositeHotspot :=
  mkCompositeHotspot 1 (inject_Z 10) (inject_Z 20) None None None "low" "unknown" 0.

Definition anonymous_record : Hotspot :=
  mkHotspot (Some "Perth") pending Missing Missing Missing Missing
            Missing Missing Missing.

Definition anonymous_group : list GeoPoint :=
  [point_at_hotspot "human" anonymous_record 1].

Lemma merge_raises_iff_zero_total_witness :
  update_or_create_composite_hotspot radians_approx central_angle_taxicab
    [empty_hotspot] anonymous_group = Raise ZeroDivisionError.
Proof.
  apply (merge_raises_iff_zero_total radians_approx central_angle_taxicab
           [empty_hotspot] anonymous_group empty_hotspot);
    vm_compute; reflexivity.
Defined.

Lemma update_or_create_table_witness :
  exists db' out,
    update_or_create_composite_hotspot radians_approx central_angle_taxicab
      table fresh_group = Ok (db', out)
    /\ NoDup (ch_id <$> db').
Proof.
  destruct (merge_runs fresh_group) as (db' & out & E);
    [vm_compute; reflexivity|].
  exists db', out. split; [exact E|].
  destruct (update_or_create_table radians_approx central_angle_taxicab
              table fresh_group db' out) as [H _].
  - vm_compute. apply NoDup_singleton.
  - exact E.
  - exact H.
Defined.

Lemma geocode_cache_bounded_witness :
  length (cache (geocode no_network no_float "Perth" fresh_geocoder).2)
  <= maxsize.
Proof. apply geocode_cache_bounded. vm_compute. lia. Defined.

Lemma geocode_uncached_spacing_witness :
  sent (geocode_uncached no_network no_float "Perth" fresh_geocoder).2
  = ["Perth"].
Proof.
  apply (geocode_uncached_spacing no_network no_float "Perth" fresh_geocoder).
  vm_compute. reflexivity.
Defined.

Lemma cluster_points_partition_witness :
  exists groups,
    cluster_points radians_approx central_angle_taxicab mixed_group = Some groups
    /\ concat groups.*2 ≡ₚ mixed_group.
Proof.
  destruct (cluster_points_partition radians_approx central_angle_taxicab
              central_angle_taxicab_self central_angle_taxicab_sym mixed_group)
    as (groups & H1 & H2 & _).
  exists groups. split; assumption.
Defined.

Lemma cluster_points_chain_witness :
  exists (labels : list Z) groups,
    cluster_points radians_approx central_angle_taxicab mixed_group = Some groups
    /\ length labels = length mixed_group.
Proof.
  destruct (cluster_points_chain radians_approx central_angle_taxicab
              central_angle_taxicab_self central_angle_taxicab_sym mixed_group)
    as (labels & groups & H1 & H2 & _).
  exists labels, groups. split; assumption.
Defined.

Lemma centroid_colocated_witness :
  ((centroid tied_group).1 == inject_Z 10)%Q
  /\ ((centroid tied_group).2 == inject_Z 20)%Q.
Proof.
  apply centroid_colocated.
  - vm_compute. discriminate.
  - repeat constructor.
  - repeat constructor.
Defined.

Lemma merge_event_types_witness :
  exists db' out types,
    update_or_create_composite_hotspot radians_approx central_angle_taxicab
      table tied_group = Ok (db', out)
    /\ out_event_types out = Some types /\ NoDup types.
Proof.
  destruct (merge_runs tied_group) as (db' & out & E);
    [vm_compute; reflexivity|].
  destruct (merge_event_types radians_approx central_angle_taxicab
              table tied_group stored_hotspot db' out)
    as (types & H1 & H2 & _); [vm_compute; reflexivity|exact E|].
  exists db', out, types. split; [exact E|]. split; assumption.
Defined.

Definition human_group : list GeoPoint :=
  [point_elsewhere "human" (human_record 7 (8 # 10)) (8 # 10)].

Lemma create_without_disaster_points_witness :
  exists row,
    update_or_create_composite_hotspot radians_approx central_angle_taxicab
      table human_group = Ok (table ++ [row], to_hotspot_data row)
    /\ ch_severity_level row = "low".
Proof.
  destruct (create_without_disaster_points radians_approx central_angle_taxicab
              table human_group) as (row & H1 & H2 & _).
  - vm_compute. reflexivity.
  - repeat constructor; discriminate.
  - exists row. split; assumption.
Defined.

Lemma process_groups_table_witness :
  length (process_groups radians_approx central_angle_taxicab table
            [(0%Z, tied_group); (1%Z, fresh_group)]).1 <= 2.
Proof.
  pose proof (process_groups_table radians_approx central_angle_taxicab
                [(0%Z, tied_group); (1%Z, fresh_group)] table) as H.
  destruct (process_groups radians_approx central_angle_taxicab table
              [(0%Z, tied_group); (1%Z, fresh_group)]) as [outs db'].
  destruct H as (H & _); [vm_compute; apply NoDup_singleton|exact H].
Defined.

Lemma generate_map_marks_witness :
  exists output_list db' st' marked,
    generate_map_json_with_persistence no_network no_float radians_approx
      central_angle_taxicab [human_record 7 (8 # 10)] [] fresh_geocoder table
    = Some (output_list, db', st', marked).
Proof.
  destruct (generate_map_marks no_network no_float radians_approx
              central_angle_taxicab central_angle_taxicab_self
              central_angle_taxicab_sym [human_record 7 (8 # 10)] []
              fresh_geocoder table)
    as (outs & db' & st' & H & _).
  exists outs, db', st'. eexists. exact H.
Defined.

End DetecterMore.
